(** * A minimal status page: renderer and Gridfox adapter

    A shallow embedding of the status page library: the status enumerant
    and its icon/title tables, the HTML renderer ([generateServiceRows],
    [generateEnvironmentTables], [generateHTML], [createStatusPage]) and the
    Gridfox adapter ([configFromGridfox]), followed by the properties of the
    status roll-up and of the rendered document. *)

From Stdlib Require Import List String Ascii Bool Arith ZArith Lia.
From Stdlib Require Import DecimalString.
Import ListNotations.
Open Scope string_scope.

(* ================================================================= *)
(** ** Strings and arrays *)

(** Template text is written with a backquote wherever the source has a
    double quote; [tpl] puts the double quotes back.  No template of the
    source contains a backquote. *)
Definition backquote : ascii := ascii_of_nat 96.
Definition dquote : ascii := ascii_of_nat 34.

Fixpoint tpl (s : string) : string :=
  match s with
  | EmptyString => EmptyString
  | String c rest =>
      String (if Ascii.eqb c backquote then dquote else c) (tpl rest)
  end.

(** [x] occurs in [s] as a contiguous run of characters. *)
Definition occurs_in (x s : string) : Prop :=
  exists before after, s = before ++ x ++ after.

(** [s] begins with [x]. *)
Definition starts_with (x s : string) : Prop :=
  exists after, s = x ++ after.

(** [Array.prototype.join] on an array of strings. *)
Definition join (sep : string) (parts : list string) : string :=
  String.concat sep parts.

(** [Array.prototype.map] with the two-argument callback [(x, index)]. *)
Fixpoint map_index_from {A B : Type} (f : A -> nat -> B) (start : nat)
    (l : list A) : list B :=
  match l with
  | [] => []
  | x :: rest => f x start :: map_index_from f (S start) rest
  end.

Definition map_index {A B : Type} (f : A -> nat -> B) (l : list A) : list B :=
  map_index_from f 0 l.

(* ================================================================= *)
(** ** Data model *)

(** The three values of [Status]. *)
Inductive StatusType : Type :=
  | noissue
  | incident
  | outage.

(** [===] on two status values. *)
Definition status_eqb (a b : StatusType) : bool :=
  match a, b with
  | noissue, noissue => true
  | incident, incident => true
  | outage, outage => true
  | _, _ => false
  end.

Module Service.
Record t : Type := mk { name : string; status : StatusType }.
End Service.
Abbreviation Service := Service.t.

Module Environment.
Record t : Type := mk { name : string; services : list Service }.
End Environment.
Abbreviation Environment := Environment.t.

(** [customCSS] is optional: [None] is the absent field. *)
Module StatusPageConfig.
Record t : Type := mk {
  title : string;
  logo : string;
  currentStatus : StatusType;
  environments : list Environment;
  customCSS : option string
}.
End StatusPageConfig.
Abbreviation StatusPageConfig := StatusPageConfig.t.

(* ================================================================= *)
(** ** Icons and titles *)

Definition ICON_noissue : string :=
  Eval vm_compute in tpl "<svg viewBox=`0 0 20 20` fill=`none` xmlns=`http://www.w3.org/2000/svg`><path fill-rule=`evenodd` clip-rule=`evenodd` d=`M10 20C15.5229 20 20 15.5228 20 10C20 4.47715 15.5229 0 10 0C4.47716 0 0 4.47715 0 10C0 15.5228 4.47716 20 10 20ZM6 10L9 13L14 8L13 7L9 11L7 9L6 10Z` fill=`#6FBA97`/></svg>".

Definition ICON_incident : string :=
  Eval vm_compute in tpl "<svg viewBox=`0 0 20 18` fill=`none` xmlns=`http://www.w3.org/2000/svg`><path fill-rule=`evenodd` clip-rule=`evenodd` d=`M1.77512 18H10H18.2249C19.4574 18 20.2271 16.665 19.6096 15.5983L11.3847 1.39172C10.7684 0.327268 9.23158 0.327264 8.61532 1.39172L0.390434 15.5983C-0.22711 16.665 0.542584 18 1.77512 18ZM9 6H11V11H9V6ZM11 13H9V15H11V13Z` fill=`#F2C661`/></svg>".

Definition ICON_outage : string :=
  Eval vm_compute in tpl "<svg viewBox=`0 0 20 20` fill=`none` xmlns=`http://www.w3.org/2000/svg`><path fill-rule=`evenodd` clip-rule=`evenodd` d=`M10 20C15.5228 20 20 15.5228 20 10C20 4.47715 15.5228 0 10 0C4.47715 0 0 4.47715 0 10C0 15.5228 4.47715 20 10 20ZM5.5 9.5V10.5H14.5V9.5H5.5Z` fill=`#D83D4E`/></svg>".

Definition ICONS (s : StatusType) : string :=
  match s with
  | noissue => ICON_noissue
  | incident => ICON_incident
  | outage => ICON_outage
  end.

Definition TITLES (s : StatusType) : string :=
  match s with
  | noissue => "All Systems Operational"
  | incident => "Some Systems Are Experiencing Issues"
  | outage => "Service Disruption Ongoing"
  end.

(* ================================================================= *)
(** ** The clock *)

(** What [new Date()] reads: the local wall-clock hour and minute and the
    local offset from UTC in minutes ([getTimezoneOffset]). *)
Record Date : Type := {
  hours : nat;
  minutes : nat;
  timezoneOffset : Z
}.

Definition decimal (n : nat) : string :=
  NilEmpty.string_of_uint (Nat.to_uint n).

Definition two_digit (n : nat) : string :=
  if (n <? 10)%nat then "0" ++ decimal n else decimal n.

(** [toLocaleTimeString('en-GB', { hour: 'numeric', minute: 'numeric' })]:
    the runtime's en-GB pattern for hour and minute is the 24-hour [HH:mm]. *)
Definition toLocaleTimeString (d : Date) : string :=
  two_digit (hours d) ++ ":" ++ two_digit (minutes d).

Definition getCurrentTime (d : Date) : string :=
  let time := toLocaleTimeString d in
  let timezone := if (timezoneOffset d =? 0)%Z then "GMT" else "BST" in
  time ++ " " ++ timezone.

(** The shape [HH:MM]: two decimal digits, a colon, two decimal digits. *)
Definition is_digit (c : ascii) : bool :=
  (48 <=? nat_of_ascii c)%nat && (nat_of_ascii c <=? 57)%nat.

Definition two_digits (s : string) : bool :=
  match s with
  | String a (String b EmptyString) => is_digit a && is_digit b
  | _ => false
  end.

Definition hh_mm (s : string) : bool :=
  match s with
  | String h1 (String h2 (String c (String m1 (String m2 EmptyString)))) =>
      is_digit h1 && is_digit h2 && Ascii.eqb c ":"
        && is_digit m1 && is_digit m2
  | _ => false
  end.

(* ================================================================= *)
(** ** Service rows and environment tables *)

Definition row_open : string :=
  Eval vm_compute in tpl "
    <div class=`row`>
      <div class=`cell`>
        <div class=`service-name`>".

Definition row_status : string :=
  Eval vm_compute in tpl "</div>
        <div class=`status`>".

Definition row_icon : string :=
  Eval vm_compute in tpl "</div>
      </div>
      <div class=`cell`>
        <div class=`icon`>".

Definition row_close : string :=
  Eval vm_compute in tpl "</div>
      </div>
    </div>
  ".

(** The callback of [services.map] in [generateServiceRows]. *)
Definition serviceRow (service : Service) : string :=
  row_open ++ Service.name service
    ++ row_status ++ TITLES (Service.status service)
    ++ row_icon ++ ICONS (Service.status service)
    ++ row_close.

Definition generateServiceRows (services : list Service) : string :=
  join "" (map serviceRow services).

Definition getIcon (services : list Service) : string :=
  if existsb (fun s => status_eqb (Service.status s) outage) services then
    ICONS outage
  else if existsb (fun s => status_eqb (Service.status s) incident) services then
    ICONS incident
  else
    ICONS noissue.

Definition details_tag : string :=
  Eval vm_compute in tpl "
    <details ".

Definition details_summary : string :=
  Eval vm_compute in tpl " class=`table`>
      <summary class=`row`>
        <div class=`cell`>".

Definition summary_icon : string :=
  Eval vm_compute in tpl "</div>
        <div class=`cell`>
          <div class=`icon`>".

Definition summary_close : string :=
  Eval vm_compute in tpl "</div>
        </div>
      </summary>
      ".

Definition details_close : string :=
  Eval vm_compute in tpl "
    </details>
  ".

(** The callback of [environments.map] in [generateEnvironmentTables]. *)
Definition environmentTable (env : Environment) (index : nat) : string :=
  details_tag ++ (if (index =? 0)%nat then "open" else "")
    ++ details_summary ++ Environment.name env
    ++ summary_icon ++ getIcon (Environment.services env)
    ++ summary_close ++ generateServiceRows (Environment.services env)
    ++ details_close.

Definition generateEnvironmentTables (environments : list Environment) : string :=
  join "" (map_index environmentTable environments).

(** The summary row of an environment table: the text of [environmentTable]
    from the opening tag to the end of the [summary] element, which is all
    of the table but its service rows and closing tag. *)
Definition environmentSummary (env : Environment) (index : nat) : string :=
  details_tag ++ (if (index =? 0)%nat then "open" else "")
    ++ details_summary ++ Environment.name env
    ++ summary_icon ++ getIcon (Environment.services env)
    ++ summary_close.

(** The opening tag of a table that starts expanded, and of one that starts
    collapsed. *)
Definition details_expanded : string :=
  Eval vm_compute in tpl "
    <details open class=`table`>".

Definition details_collapsed : string :=
  Eval vm_compute in tpl "
    <details  class=`table`>".

(* ================================================================= *)
(** ** The page *)

Definition html_head : string :=
  Eval vm_compute in tpl "
<!DOCTYPE html>
<html lang=`en`>
<head>
  <meta charset=`UTF-8`>
  <meta name=`viewport` content=`width=device-width, initial-scale=1.0`>
  <title>".

Definition html_links : string :=
  Eval vm_compute in tpl "</title>
  <link rel=`preconnect` href=`https://rsms.me/`>
  <link rel=`stylesheet` href=`https://rsms.me/inter/inter.css`>
  ".

Definition html_style_open : string := "<style>".

Definition html_builtin_css : string :=
  Eval vm_compute in tpl "
    :root {
      font-family: Inter, sans-serif;
      font-feature-settings: 'liga'1, 'calt'1;
    }

    @supports (font-variation-settings: normal) {
      :root {
        font-family: InterVariable, sans-serif;
      }
    }

    body {
      margin: 0;
      min-height: 100vh;
      
      nav {
        position: sticky;
        top: 0;
        z-index: 10;
        padding: 1rem;
        background: white;
        justify-content: space-between;
        align-items: center;
        display: flex;
        
        .links {
          display: flex;
          font-size: 0.9em;
          gap: 0.8em;
          
          a {
            text-decoration: none;
          }
        }
      }
    }

    .header {
      padding: 3rem 1.6rem;
      text-align: center;
      flex-direction: column;
      justify-content: center;
      align-items: center;
      display: flex;
      
      .icon {
        svg {
          width: 3rem;
          display: block;
        }
      }

      h1 {
        margin: 2rem 0 1rem;
        font-size: 1rem;
        line-height: 1.6;
        font-weight: 600;
        max-width: 300px;
      }

      p {
        margin: 0;
        font-size: 0.9em;
        color: gray;
      }
    }
    
    .table {
      margin: auto;
      font-size: 0.9em;
      max-width: 840px;
      flex-direction: column;
      display: flex;
      
      .icon {
        width: 24px;
        align-items: center;
        display: flex;
      }

      .row {
        border-bottom: 1px solid rgba(0,0,0,0.1);
        display: flex;

        .cell {
          gap: 0.6em;
          padding: 1rem 1.1rem;
          flex-direction: unset;
          align-items: center;
          display: flex;
          
          &:first-child {
            justify-content: unset;
            flex-grow: 1;
          }
        }
        &:not(:has(.icon)) {
          .cell {
            font-weight: 600;
          }
        }
      }
    }

    div.table {
      position: sticky;
      top: 46px;
      background: white;
      z-index: 10;

      .cell:not(:has(.icon)) {
        font-weight: 600;
      }
    }

    details.table {
      &:last-of-type {
        padding-bottom: 10rem;

        .row:last-child {
          border-bottom: 0;
        }
      }

      .row {
        border-bottom: 1px solid rgba(0,0,0,0.1);

        .cell {
          &:first-child {
            flex-direction: column;
            justify-content: center;
            align-items: unset;
          }

          &:not(:first-child) {
            justify-content: flex-end;
            font-size: 0.9em;
            color: gray;
          }

          .status {
            font-size: 0.9em;
            font-weight: 400;
            color: gray;
          }
        }
      }

      summary.row {
        font-weight: 600;
        cursor: pointer;

        .cell:first-child {
          flex-direction: row;
          justify-content: unset;
          align-items: center;
          gap: 1em;

          &::before {
            content: '';
            width: 6px;
            height: 6px;
            border: solid currentColor;
            border-width: 2px 2px 0 0;
            transform: rotate(45deg);
          }
        }
      }

      &[open] summary.row .cell:first-child::before {
        margin-top: -3px;
        border-width: 0 2px 2px 0;
      }
    }
    /* Custom styles */
    ".

Definition html_style_close : string :=
  Eval vm_compute in tpl "
  </style>".

Definition html_nav : string :=
  Eval vm_compute in tpl "
</head>
<body>
  <nav>
    <div class=`logo`>
      ".

Definition img_open : string :=
  Eval vm_compute in tpl "<img height=`22px;` src=`".

Definition img_close : string :=
  Eval vm_compute in tpl "` alt=`Logo`>".

Definition html_header : string :=
  Eval vm_compute in tpl "
    </div>
    <div class=`links`>
      <a href=`/`>View issues</a>
      <a href=`/`>New issue</a>
    </div>
  </nav>
  <div class=`header`>
    <div class=`icon`>".

Definition html_h1 : string :=
  Eval vm_compute in tpl "</div>
    <h1>".

Definition html_today : string :=
  Eval vm_compute in tpl "</h1>
    <p>Today - ".

Definition html_legend_noissue : string :=
  Eval vm_compute in tpl "</p>
  </div>
  <div class=`table`>
    <div class=`row`>
      <div class=`cell`>Current status by service</div>
      <div class=`cell`>
        No issue <div class=`icon`>".

Definition html_legend_incident : string :=
  Eval vm_compute in tpl "</div>
      </div>
      <div class=`cell`>
        Incident <div class=`icon`>".

Definition html_legend_outage : string :=
  Eval vm_compute in tpl "</div>
      </div>
      <div class=`cell`>
        Outage <div class=`icon`>".

Definition html_tables : string :=
  Eval vm_compute in tpl "</div>
      </div>
    </div>
  </div>
  ".

Definition html_end : string :=
  Eval vm_compute in tpl "
</body>
</html>".

(** [config.customCSS || '']. *)
Definition customCSS_or_empty (config : StatusPageConfig) : string :=
  match StatusPageConfig.customCSS config with
  | Some css => css
  | None => ""
  end.

(** The logo hole of the navigation bar. *)
Definition logoMarkup (logo : string) : string :=
  if String.prefix "<svg" logo then logo
  else img_open ++ logo ++ img_close.

(** [generateHTML], with the clock reading of [getCurrentTime] passed in. *)
Definition generateHTML (now : Date) (config : StatusPageConfig) : string :=
  let currentTime := getCurrentTime now in
  html_head ++ StatusPageConfig.title config
    ++ html_links
    ++ html_style_open ++ html_builtin_css ++ customCSS_or_empty config
    ++ html_style_close
    ++ html_nav ++ logoMarkup (StatusPageConfig.logo config)
    ++ html_header ++ ICONS (StatusPageConfig.currentStatus config)
    ++ html_h1 ++ TITLES (StatusPageConfig.currentStatus config)
    ++ html_today ++ currentTime
    ++ html_legend_noissue ++ ICONS noissue
    ++ html_legend_incident ++ ICONS incident
    ++ html_legend_outage ++ ICONS outage
    ++ html_tables
    ++ generateEnvironmentTables (StatusPageConfig.environments config)
    ++ html_end.

Record Response : Type := {
  body : string;
  headers : list (string * string)
}.

Definition createStatusPage (now : Date) (config : StatusPageConfig) : Response :=
  let statusPage := generateHTML now config in
  {| body := statusPage; headers := [("Content-Type", "text/html")] |}.

(* ================================================================= *)
(** ** The Gridfox adapter *)

(** A field of a fetched JSON record, as far as [===] can tell values
    apart: an absent field reads as [undefined]. *)
Inductive JsValue : Type :=
  | JsUndefined
  | JsNull
  | JsBoolean (b : bool)
  | JsNumber (n : Z)
  | JsString (s : string).

(** [a === b]. *)
Definition strict_eq (a b : JsValue) : bool :=
  match a, b with
  | JsUndefined, JsUndefined => true
  | JsNull, JsNull => true
  | JsBoolean x, JsBoolean y => Bool.eqb x y
  | JsNumber x, JsNumber y => Z.eqb x y
  | JsString x, JsString y => String.eqb x y
  | _, _ => false
  end.

(** An issue record is a [Record<string, unknown>]. *)
Definition IssueRecord : Type := list (string * JsValue).

(** Property access [issue.key]. *)
Fixpoint field (key : string) (issue : IssueRecord) : JsValue :=
  match issue with
  | [] => JsUndefined
  | (k, v) :: rest => if String.eqb k key then v else field key rest
  end.

(** The records of the environments table carry what becomes a [Service]
    and an [Environment]: a reference field value per service, a name per
    environment.  They are read at the types [Service] and [Environment]
    declare for them, as strings; records in which one of them is missing
    or not a string are outside this model. *)
Module ServiceRecord.
Record t : Type := mk { referenceFieldValue : string }.
End ServiceRecord.
Abbreviation ServiceRecord := ServiceRecord.t.

Module EnvironmentRecord.
Record t : Type := mk { name : string; services : list ServiceRecord }.
End EnvironmentRecord.
Abbreviation EnvironmentRecord := EnvironmentRecord.t.

(** [if (xs.length)]: a length is truthy unless it is zero. *)
Definition truthy_length {A : Type} (xs : list A) : bool :=
  negb (List.length xs =? 0)%nat.

Section Adapter.

(** [config.issueStatusType], and the two fetched tables. *)
Variable issueStatusType : IssueRecord -> StatusType.
Variable environmentRecords : list EnvironmentRecord.
Variable issueRecords : list IssueRecord.

(** The join predicate of [issueRecords.filter]. *)
Definition issueMatches (env : EnvironmentRecord) (s : ServiceRecord)
    (issue : IssueRecord) : bool :=
  strict_eq (field "service" issue)
            (JsString (ServiceRecord.referenceFieldValue s))
  && strict_eq (field "environment" issue)
               (JsString (EnvironmentRecord.name env)).

Definition scopedIssues (env : EnvironmentRecord) (s : ServiceRecord)
    : list IssueRecord :=
  filter (issueMatches env s) issueRecords.

(** The status a service gets from its scoped issues. *)
Definition statusOfIssues (scoped : list IssueRecord) : StatusType :=
  let incidentIssues :=
    filter (fun i => status_eqb (issueStatusType i) incident) scoped in
  let outageIssues :=
    filter (fun i => status_eqb (issueStatusType i) outage) scoped in
  let status := noissue in
  let status := if truthy_length incidentIssues then incident else status in
  let status := if truthy_length outageIssues then outage else status in
  status.

(** The callback of [env.services.map]. *)
Definition serviceOfRecord (env : EnvironmentRecord) (s : ServiceRecord)
    : Service :=
  Service.mk (ServiceRecord.referenceFieldValue s)
             (statusOfIssues (scopedIssues env s)).

(** The callback of [environmentRecords.map]. *)
Definition environmentOfRecord (env : EnvironmentRecord) : Environment :=
  Environment.mk (EnvironmentRecord.name env)
                 (map (serviceOfRecord env) (EnvironmentRecord.services env)).

(** The page-level status over the environments just built. *)
Definition statusOfEnvironments (environments : list Environment)
    : StatusType :=
  let anyService (wanted : StatusType) :=
    existsb (fun e =>
      existsb (fun s => status_eqb (Service.status s) wanted)
              (Environment.services e)) environments in
  let currentStatus := noissue in
  let currentStatus :=
    if anyService incident then incident else currentStatus in
  let currentStatus :=
    if anyService outage then outage else currentStatus in
  currentStatus.

(** [configFromGridfox], given what the two fetches returned. *)
Definition configFromGridfox : StatusPageConfig :=
  let environments := map environmentOfRecord environmentRecords in
  let currentStatus := statusOfEnvironments environments in
  StatusPageConfig.mk "" "" currentStatus environments None.

End Adapter.

(* ================================================================= *)
(** ** The roll-up rule as the specification words it *)

(** Severity order [noissue < incident < outage]. *)
Definition severity (s : StatusType) : nat :=
  match s with
  | noissue => 0
  | incident => 1
  | outage => 2
  end.

Definition more_severe (a b : StatusType) : StatusType :=
  if (severity a <? severity b)%nat then b else a.

(** The maximum by severity of a list of statuses, [noissue] when the list
    is empty. *)
Definition severity_max (statuses : list StatusType) : StatusType :=
  fold_right more_severe noissue statuses.

(** The statuses of all services of all environments, in display order. *)
Definition all_statuses (environments : list Environment) : list StatusType :=
  flat_map (fun e => map Service.status (Environment.services e)) environments.

(* ================================================================= *)
(** ** The demo configuration *)

Definition demoLogo : string :=
  Eval vm_compute in tpl "<svg width=`43` height=`22` xmlns=`http://www.w3.org/2000/svg`>
  <rect width=`100%` height=`100%` fill=`transparent`/>
  <text x=`50%` y=`50%` font-size=`18` fill=`#333` text-anchor=`middle` alignment-baseline=`middle`>Logo</text>
</svg>".

Definition production : Environment :=
  Environment.mk "Production"
    [ Service.mk "Web App" noissue;
      Service.mk "API" incident;
      Service.mk "Database" noissue ].

Definition staging : Environment :=
  Environment.mk "Staging"
    [ Service.mk "Web App" noissue;
      Service.mk "API" noissue;
      Service.mk "Database" outage ].

Definition staticConfig : StatusPageConfig :=
  StatusPageConfig.mk "My Company Status" demoLogo noissue
    [ production; staging ] (Some "").

(** A configuration whose names are markup. *)
Definition hostileService : Service :=
  Service.mk "<script>alert(1)</script>" noissue.

Definition hostileEnvironment : Environment :=
  Environment.mk "<i>Production</i>" [ hostileService ].

Definition hostileConfig : StatusPageConfig :=
  StatusPageConfig.mk "<b>Status</b>" "logo.png" noissue
    [ hostileEnvironment ] None.

(** The classifier of the usage notes: a [Bug] is an incident, an [Outage]
    an outage, anything else no issue. *)
Definition demoIssueStatusType (issue : IssueRecord) : StatusType :=
  if strict_eq (field "type" issue) (JsString "Bug") then incident
  else if strict_eq (field "type" issue) (JsString "Outage") then outage
  else noissue.

(** Three environment records and two open issues, one of them an outage
    of the API in production. *)
Definition demoService (reference : string) : ServiceRecord :=
  ServiceRecord.mk reference.

Definition demoProduction : EnvironmentRecord :=
  EnvironmentRecord.mk "Production" [ demoService "Web App"; demoService "API" ].

Definition demoStaging : EnvironmentRecord :=
  EnvironmentRecord.mk "Staging" [ demoService "Web App"; demoService "API" ].

Definition demoDevelopment : EnvironmentRecord :=
  EnvironmentRecord.mk "Development" [ demoService "API" ].

Definition demoEnvironmentRecords : list EnvironmentRecord :=
  [ demoProduction; demoStaging; demoDevelopment ].

Definition demoOutageIssue : IssueRecord :=
  [ ("service", JsString "API"); ("environment", JsString "Production");
    ("type", JsString "Outage"); ("Status", JsString "New") ].

Definition demoQuestionIssue : IssueRecord :=
  [ ("service", JsString "Web App"); ("environment", JsString "Staging");
    ("type", JsString "Question"); ("Status", JsString "In Progress") ].

Definition demoIssueRecords : list IssueRecord :=
  [ demoOutageIssue; demoQuestionIssue ].

(** A clock reading at noon on the Greenwich meridian, and one a summer
    afternoon an hour ahead of it. *)
Definition noon : Date :=
  {| hours := 12; minutes := 0; timezoneOffset := 0 |}.

Definition summer_afternoon : Date :=
  {| hours := 15; minutes := 7; timezoneOffset := (-60)%Z |}.

(* ================================================================= *)
(** ** The requests of the adapter *)

(** [s] ends with [x]. *)
Definition ends_with (x s : string) : Prop :=
  exists before, s = before ++ x.

(** The options of [configFromGridfox]; the two optional fields are [None]
    when absent. *)
Module GridfoxConfig.
Record t : Type := mk {
  apiKey : string;
  brandingTableName : option string;
  environmentsTableName : string;
  issuesTableName : string;
  issueStatusListFieldName : string;
  openIssueListItems : list string;
  issueStatusType : IssueRecord -> StatusType;
  proxyApiUrl : option string
}.
End GridfoxConfig.
Abbreviation GridfoxConfig := GridfoxConfig.t.

(** What a fetch is made from: the URL, and the object literal from which
    the runtime's [Headers] is built.  What [Headers] makes of that literal
    (it trims the values and refuses some) is the runtime's and is not
    modelled, so nothing is said of the headers that are sent. *)
Module Request.
Record t : Type := mk {
  url : string;
  headersInit : list (string * string)
}.
End Request.
Abbreviation Request := Request.t.

(** The remote API: the records it answers a request with, read as
    environment records by the first fetch and as issue records by the
    second. *)
Record Remote : Type := {
  environmentsOf : Request -> list EnvironmentRecord;
  issuesOf : Request -> list IssueRecord
}.

(** [config.proxyApiUrl || 'https://api.gridfox.com']: an absent and an
    empty override are both falsy. *)
Definition apiRoot (config : GridfoxConfig) : string :=
  match GridfoxConfig.proxyApiUrl config with
  | Some proxy => if String.eqb proxy "" then "https://api.gridfox.com" else proxy
  | None => "https://api.gridfox.com"
  end.

(** The object literal given to [new Headers]. *)
Definition headersInit (config : GridfoxConfig) : list (string * string) :=
  [ ("gridfox-api-key", GridfoxConfig.apiKey config);
    ("content-type", "application/json") ].

(** The request of [fetchGridfox tableName filter]. *)
Definition fetchGridfox (config : GridfoxConfig) (tableName filter : string)
    : Request :=
  Request.mk (apiRoot config ++ "/data/" ++ tableName ++ filter)
             (headersInit config).

Definition quoteItem (item : string) : string :=
  "'" ++ item ++ "'".

(** The query of the issues fetch. *)
Definition issuesFilter (config : GridfoxConfig) : string :=
  "?paged=false&$filter=" ++ GridfoxConfig.issueStatusListFieldName config
    ++ " in ("
    ++ join "," (map quoteItem (GridfoxConfig.openIssueListItems config))
    ++ ")".

Definition environmentsRequest (config : GridfoxConfig) : Request :=
  fetchGridfox config (GridfoxConfig.environmentsTableName config)
               "?paged=false".

Definition issuesRequest (config : GridfoxConfig) : Request :=
  fetchGridfox config (GridfoxConfig.issuesTableName config)
               (issuesFilter config).

(** [configFromGridfox] against a remote: the two fetches, then the
    mapping. *)
Definition configFromGridfoxOver (remote : Remote) (config : GridfoxConfig)
    : StatusPageConfig :=
  let environmentRecords := environmentsOf remote (environmentsRequest config) in
  let issueRecords := issuesOf remote (issuesRequest config) in
  configFromGridfox (GridfoxConfig.issueStatusType config)
                    environmentRecords issueRecords.

(** An issue that the join scopes to some service of some environment
    record. *)
Definition scopedSomewhere (environmentRecords : list EnvironmentRecord)
    (issue : IssueRecord) : bool :=
  existsb (fun env =>
    existsb (fun s => issueMatches env s issue)
            (EnvironmentRecord.services env)) environmentRecords.

(** An issue whose classification is not [noissue]. *)
Definition alarming (issueStatusType : IssueRecord -> StatusType)
    (issue : IssueRecord) : bool :=
  negb (status_eqb (issueStatusType issue) noissue).

(** The options of the usage notes. *)
Definition demoGridfoxConfig : GridfoxConfig :=
  GridfoxConfig.mk "secret" None "Environments" "Issues" "Status"
    [ "New"; "In Progress" ] demoIssueStatusType None.

(** An outage of an environment that is not among the fetched ones. *)
Definition demoStrayIssue : IssueRecord :=
  [ ("service", JsString "API"); ("environment", JsString "Sandbox");
    ("type", JsString "Outage") ].

(** The first line of text of the document, after the line break the
    template opens with. *)
Definition doctype_line : string :=
  "
<!DOCTYPE html>".

(** The empty title element and the image of an empty logo. *)
Definition empty_title : string := "<title></title>".

Definition empty_logo_image : string :=
  Eval vm_compute in tpl "<img height=`22px;` src=`` alt=`Logo`>".

(* ================================================================= *)
(** * Properties *)

(** ** Text: concatenation and occurrence *)

Lemma append_assoc (a b c : string) : (a ++ b) ++ c = a ++ (b ++ c).
Proof.
  induction a as [|ch a IH]; simpl; [reflexivity | now rewrite IH].
Qed.

Lemma append_empty_r (a : string) : a ++ "" = a.
Proof.
  induction a as [|ch a IH]; simpl; [reflexivity | now rewrite IH].
Qed.

Lemma occurs_in_refl (x : string) : occurs_in x x.
Proof.
  exists "", "". simpl. now rewrite append_empty_r.
Qed.

Lemma occurs_in_app_l (x a b : string) :
  occurs_in x a -> occurs_in x (a ++ b).
Proof.
  intros (p & q & ->). exists p, (q ++ b).
  now rewrite !append_assoc.
Qed.

Lemma occurs_in_app_r (x a b : string) :
  occurs_in x b -> occurs_in x (a ++ b).
Proof.
  intros (p & q & ->). exists (a ++ p), q.
  now rewrite !append_assoc.
Qed.

Lemma occurs_in_trans (x y z : string) :
  occurs_in x y -> occurs_in y z -> occurs_in x z.
Proof.
  intros (p & q & ->) (p' & q' & ->).
  exists (p' ++ p), (q ++ q'). now rewrite !append_assoc.
Qed.

(** Walk down a right-nested concatenation to the wanted part. *)
Ltac occurs :=
  solve [ assumption
        | apply occurs_in_refl
        | apply occurs_in_app_l; occurs
        | apply occurs_in_app_r; occurs ].

Lemma join_empty_cons (x : string) (parts : list string) :
  join "" (x :: parts) = x ++ join "" parts.
Proof.
  unfold join. destruct parts as [|y parts]; simpl.
  - now rewrite append_empty_r.
  - reflexivity.
Qed.

Lemma occurs_in_join (x : string) (parts : list string) :
  In x parts -> occurs_in x (join "" parts).
Proof.
  induction parts as [|y parts IH]; intros Hin; [destruct Hin|].
  rewrite join_empty_cons. destruct Hin as [-> | Hin].
  - apply occurs_in_app_l, occurs_in_refl.
  - apply occurs_in_app_r, IH, Hin.
Qed.

Lemma nth_error_map_index_from {A B : Type} (f : A -> nat -> B)
    (l : list A) (start i : nat) (x : A) :
  nth_error l i = Some x ->
  nth_error (map_index_from f start l) i = Some (f x (start + i)).
Proof.
  revert start i. induction l as [|y l IH]; intros start [|i] H;
    simpl in *; try discriminate.
  - injection H as ->. now rewrite Nat.add_0_r.
  - rewrite (IH (S start) i H). f_equal. f_equal. lia.
Qed.

Lemma nth_error_map_index {A B : Type} (f : A -> nat -> B)
    (l : list A) (i : nat) (x : A) :
  nth_error l i = Some x ->
  nth_error (map_index f l) i = Some (f x i).
Proof.
  intros H. unfold map_index.
  now rewrite (nth_error_map_index_from f l 0 i x H).
Qed.

Lemma length_map_index_from {A B : Type} (f : A -> nat -> B)
    (l : list A) (start : nat) :
  List.length (map_index_from f start l) = List.length l.
Proof.
  revert start. induction l as [|y l IH]; intros start; simpl;
    [reflexivity | now rewrite IH].
Qed.

(** [String.prefix] decides [starts_with]. *)
Lemma prefix_starts_with (x s : string) :
  String.prefix x s = true <-> starts_with x s.
Proof.
  revert s. induction x as [|c x IH]; intros s.
  - split; [intros _; now exists s | intros _; now destruct s].
  - destruct s as [|d s]; simpl.
    + split; [discriminate | intros (after & H); discriminate].
    + destruct (ascii_dec c d) as [-> | Hcd].
      * rewrite IH. split; intros (after & H); exists after.
        -- simpl. now rewrite H.
        -- simpl in H. now injection H.
      * split; [discriminate|]. intros (after & H). simpl in H.
        injection H as H1 H2. congruence.
Qed.

(* ================================================================= *)
(** ** The severity rule *)

Lemma status_eqb_eq (a b : StatusType) : status_eqb a b = true <-> a = b.
Proof.
  destruct a, b; simpl; split; intros H; try reflexivity; discriminate.
Qed.

Lemma ICONS_injective (a b : StatusType) : ICONS a = ICONS b -> a = b.
Proof.
  destruct a, b; intros H; try reflexivity; vm_compute in H; discriminate.
Qed.

Lemma existsb_status_In (wanted : StatusType) (statuses : list StatusType) :
  existsb (fun s => status_eqb s wanted) statuses = true <-> In wanted statuses.
Proof.
  rewrite existsb_exists. split.
  - intros (s & Hin & Heq). apply status_eqb_eq in Heq. now subst.
  - intros Hin. exists wanted. split; [assumption | now apply status_eqb_eq].
Qed.

Lemma existsb_through_map {A : Type} (f : A -> StatusType)
    (p : StatusType -> bool) (xs : list A) :
  existsb (fun x => p (f x)) xs = existsb p (map f xs).
Proof.
  induction xs as [|x xs IH]; simpl; [reflexivity | now rewrite IH].
Qed.

Lemma existsb_through_flat_map {A B : Type} (f : A -> list B)
    (p : B -> bool) (xs : list A) :
  existsb (fun x => existsb p (f x)) xs = existsb p (flat_map f xs).
Proof.
  induction xs as [|x xs IH]; simpl; [reflexivity|].
  now rewrite existsb_app, IH.
Qed.

Lemma truthy_length_filter {A : Type} (p : A -> bool) (xs : list A) :
  truthy_length (filter p xs) = existsb p xs.
Proof.
  unfold truthy_length.
  induction xs as [|x xs IH]; simpl; [reflexivity|].
  destruct (p x); simpl; [reflexivity | exact IH].
Qed.

(** The two-test cascade every call site runs is the maximum by severity. *)
Lemma severity_max_cascade (statuses : list StatusType) :
  severity_max statuses =
    if existsb (fun s => status_eqb s outage) statuses then outage
    else if existsb (fun s => status_eqb s incident) statuses then incident
    else noissue.
Proof.
  induction statuses as [|s statuses IH]; simpl; [reflexivity|].
  rewrite IH.
  destruct s; simpl;
    destruct (existsb (fun s => status_eqb s outage) statuses);
    destruct (existsb (fun s => status_eqb s incident) statuses);
    reflexivity.
Qed.

Lemma severity_max_outage (statuses : list StatusType) :
  severity_max statuses = outage <-> In outage statuses.
Proof.
  rewrite severity_max_cascade, <- existsb_status_In.
  destruct (existsb (fun s => status_eqb s outage) statuses);
    destruct (existsb (fun s => status_eqb s incident) statuses);
    split; intros H; try reflexivity; discriminate.
Qed.

Lemma severity_max_incident (statuses : list StatusType) :
  severity_max statuses = incident <->
  ~ In outage statuses /\ In incident statuses.
Proof.
  rewrite severity_max_cascade, <- !existsb_status_In.
  destruct (existsb (fun s => status_eqb s outage) statuses);
    destruct (existsb (fun s => status_eqb s incident) statuses);
    split; intros H; try reflexivity; try discriminate;
    try (split; [discriminate | reflexivity]);
    destruct H as [H1 H2]; try discriminate; now elim H1.
Qed.

Lemma severity_max_noissue (statuses : list StatusType) :
  severity_max statuses = noissue <->
  ~ In outage statuses /\ ~ In incident statuses.
Proof.
  rewrite severity_max_cascade, <- !existsb_status_In.
  destruct (existsb (fun s => status_eqb s outage) statuses);
    destruct (existsb (fun s => status_eqb s incident) statuses);
    split; intros H; try reflexivity; try discriminate;
    try (split; discriminate);
    destruct H as [H1 H2]; try (now elim H1); now elim H2.
Qed.

(** Nothing in the list is more severe than the maximum. *)
Lemma severity_max_upper_bound (statuses : list StatusType) (s : StatusType) :
  In s statuses -> severity s <= severity (severity_max statuses).
Proof.
  induction statuses as [|t statuses IH]; intros Hin; [destruct Hin|].
  simpl. unfold more_severe.
  destruct (Nat.ltb_spec (severity t) (severity (severity_max statuses)));
    destruct Hin as [-> | Hin]; try lia; specialize (IH Hin); lia.
Qed.

Lemma getIcon_severity_max (services : list Service) :
  getIcon services = ICONS (severity_max (map Service.status services)).
Proof.
  unfold getIcon. rewrite severity_max_cascade.
  rewrite !(existsb_through_map Service.status (fun s => status_eqb s _)).
  destruct (existsb _ (map Service.status services)); [reflexivity|].
  destruct (existsb _ (map Service.status services)); reflexivity.
Qed.

Lemma statusOfIssues_severity_max (issueStatusType : IssueRecord -> StatusType)
    (scoped : list IssueRecord) :
  statusOfIssues issueStatusType scoped =
  severity_max (map issueStatusType scoped).
Proof.
  unfold statusOfIssues. rewrite severity_max_cascade, !truthy_length_filter.
  rewrite !(existsb_through_map issueStatusType (fun s => status_eqb s _)).
  reflexivity.
Qed.

Lemma statusOfEnvironments_severity_max (environments : list Environment) :
  statusOfEnvironments environments = severity_max (all_statuses environments).
Proof.
  unfold statusOfEnvironments, all_statuses. rewrite severity_max_cascade.
  rewrite <- !existsb_through_flat_map.
  assert (E : forall wanted,
    existsb (fun e => existsb (fun s => status_eqb (Service.status s) wanted)
                              (Environment.services e)) environments
    = existsb (fun e => existsb (fun s => status_eqb s wanted)
                 (map Service.status (Environment.services e))) environments).
  { intros wanted. induction environments as [|e es IH]; simpl; [reflexivity|].
    rewrite IH.
    now rewrite (existsb_through_map Service.status
                   (fun s => status_eqb s wanted)). }
  rewrite !E. reflexivity.
Qed.

(* ================================================================= *)
(** ** The rendered document *)

Lemma environmentTable_summary (env : Environment) (index : nat) :
  environmentTable env index =
  environmentSummary env index
    ++ generateServiceRows (Environment.services env) ++ details_close.
Proof.
  unfold environmentTable, environmentSummary.
  now rewrite !append_assoc.
Qed.

Lemma environmentTable_occurs (environments : list Environment)
    (index : nat) (env : Environment) :
  nth_error environments index = Some env ->
  occurs_in (environmentTable env index)
            (generateEnvironmentTables environments).
Proof.
  intros H. apply occurs_in_join.
  apply (nth_error_In _ index).
  now apply nth_error_map_index.
Qed.

Lemma generateEnvironmentTables_occurs (now : Date) (config : StatusPageConfig) :
  occurs_in (generateEnvironmentTables (StatusPageConfig.environments config))
            (generateHTML now config).
Proof.
  unfold generateHTML. cbv zeta. occurs.
Qed.

Lemma serviceRow_occurs (services : list Service) (service : Service) :
  In service services ->
  occurs_in (serviceRow service) (generateServiceRows services).
Proof.
  intros H. apply occurs_in_join. now apply in_map.
Qed.

Lemma In_statuses (services : list Service) (wanted : StatusType) :
  In wanted (map Service.status services) <->
  exists s, In s services /\ Service.status s = wanted.
Proof.
  rewrite in_map_iff. split; intros (s & H1 & H2); exists s; tauto.
Qed.

(** C1. For every environment of a rendered configuration, the status icon
    shown in the summary row of its table is the icon of the maximum, by the
    severity order outage > incident > noissue, of the statuses of its
    services: outage if some service has status outage, else incident if
    some service has status incident, else noissue; an environment without
    services shows noissue. *)
Theorem environment_shows_severity_max :
  forall (now : Date) (config : StatusPageConfig)
         (index : nat) (env : Environment),
    nth_error (StatusPageConfig.environments config) index = Some env ->
    let services := Environment.services env in
    let shown := severity_max (map Service.status services) in
    getIcon services = ICONS shown
    /\ environmentTable env index =
         details_tag ++ (if (index =? 0)%nat then "open" else "")
           ++ details_summary ++ Environment.name env
           ++ summary_icon ++ ICONS shown
           ++ summary_close ++ generateServiceRows services
           ++ details_close
    /\ occurs_in (environmentTable env index) (generateHTML now config)
    /\ (shown = outage <->
        exists s, In s services /\ Service.status s = outage)
    /\ (shown = incident <->
        (~ exists s, In s services /\ Service.status s = outage)
        /\ exists s, In s services /\ Service.status s = incident)
    /\ (shown = noissue <->
        (~ exists s, In s services /\ Service.status s = outage)
        /\ ~ exists s, In s services /\ Service.status s = incident)
    /\ (forall s, In s services ->
        severity (Service.status s) <= severity shown)
    /\ (services = [] -> shown = noissue).
Proof.
  intros now config index env Hnth services shown.
  assert (Hicon : getIcon services = ICONS shown)
    by apply getIcon_severity_max.
  split; [exact Hicon|].
  split; [unfold environmentTable; fold services; now rewrite Hicon|].
  split.
  { eapply occurs_in_trans.
    - apply environmentTable_occurs, Hnth.
    - apply generateEnvironmentTables_occurs. }
  rewrite <- !In_statuses.
  split; [apply severity_max_outage|].
  split; [apply severity_max_incident|].
  split; [apply severity_max_noissue|].
  split.
  - intros s Hs. apply severity_max_upper_bound. now apply in_map.
  - intros H. unfold shown. now rewrite H.
Qed.

Lemma environment_shows_severity_max_witness :
  getIcon (Environment.services staging) = ICONS outage
  /\ occurs_in (environmentTable staging 1) (generateHTML noon staticConfig).
Proof.
  destruct (environment_shows_severity_max noon staticConfig 1 staging eq_refl)
    as (Hicon & _ & Hpage & _).
  split; [exact Hicon | exact Hpage].
Defined.

(** C2, as stated, fails: the status shown in an environment's summary row
    is not taken from a value the caller supplies.  Two environments that
    agree on every name and differ only in the status of one service show
    different summary rows. *)
Lemma summary_row_follows_service_statuses :
  ~ (forall (env env' : Environment) (index : nat),
       Environment.name env = Environment.name env' ->
       map Service.name (Environment.services env)
         = map Service.name (Environment.services env') ->
       environmentSummary env index = environmentSummary env' index).
Proof.
  intros H.
  specialize (H (Environment.mk "Production" [Service.mk "API" noissue])
                (Environment.mk "Production" [Service.mk "API" outage])
                0 eq_refl eq_refl).
  apply String.eqb_eq in H. vm_compute in H. discriminate.
Qed.

(** C2, amended. The renderer derives every environment's displayed status
    itself, from the statuses of that environment's services by the
    severity rule; an environment carries no status of its own.  Only the
    page-level status of the header is taken as the caller supplied it, from
    [currentStatus], whatever the services say. *)
Theorem environment_status_derived_header_status_supplied :
  forall (now : Date) (config : StatusPageConfig),
    (exists before after,
       generateHTML now config =
         before
           ++ html_header ++ ICONS (StatusPageConfig.currentStatus config)
           ++ html_h1 ++ TITLES (StatusPageConfig.currentStatus config)
           ++ html_today ++ after)
    /\ forall (index : nat) (env : Environment),
         nth_error (StatusPageConfig.environments config) index = Some env ->
         environmentSummary env index =
           details_tag ++ (if (index =? 0)%nat then "open" else "")
             ++ details_summary ++ Environment.name env
             ++ summary_icon
             ++ ICONS (severity_max
                         (map Service.status (Environment.services env)))
             ++ summary_close
         /\ occurs_in (environmentSummary env index) (generateHTML now config).
Proof.
  intros now config. split.
  - exists (html_head ++ StatusPageConfig.title config ++ html_links
              ++ html_style_open
              ++ html_builtin_css ++ customCSS_or_empty config
              ++ html_style_close ++ html_nav
              ++ logoMarkup (StatusPageConfig.logo config)).
    eexists. unfold generateHTML. cbv zeta.
    rewrite !append_assoc. reflexivity.
  - intros index env Hnth. split.
    + unfold environmentSummary. now rewrite getIcon_severity_max.
    + apply occurs_in_trans with (environmentTable env index).
      * rewrite environmentTable_summary. occurs.
      * eapply occurs_in_trans.
        -- apply environmentTable_occurs, Hnth.
        -- apply generateEnvironmentTables_occurs.
Qed.

Lemma environment_status_derived_header_status_supplied_witness :
  environmentSummary production 0 =
    details_tag ++ "open" ++ details_summary ++ "Production"
      ++ summary_icon ++ ICONS incident ++ summary_close
  /\ occurs_in (environmentSummary production 0)
               (generateHTML noon staticConfig)
  /\ StatusPageConfig.currentStatus staticConfig = noissue.
Proof.
  destruct (environment_status_derived_header_status_supplied noon staticConfig)
    as (_ & Henv).
  destruct (Henv 0 production eq_refl) as (Hsummary & Hpage).
  split; [exact Hsummary | split; [exact Hpage | reflexivity]].
Defined.

Lemma environmentTable_position (environments : list Environment)
    (index : nat) (env : Environment) :
  nth_error environments index = Some env ->
  nth_error (map_index environmentTable environments) index
    = Some (environmentTable env index).
Proof.
  apply nth_error_map_index.
Qed.

Lemma first_table_expanded (env : Environment) :
  String.prefix details_expanded (environmentTable env 0) = true
  /\ String.prefix details_collapsed (environmentTable env 0) = false.
Proof.
  split; reflexivity.
Qed.

Lemma later_table_collapsed (env : Environment) (index : nat) :
  String.prefix details_expanded (environmentTable env (S index)) = false
  /\ String.prefix details_collapsed (environmentTable env (S index)) = true.
Proof.
  split; reflexivity.
Qed.

Lemma join_empty_app (xs ys : list string) :
  join "" (xs ++ ys)%list = join "" xs ++ join "" ys.
Proof.
  induction xs as [|x xs IH]; [reflexivity|].
  change ((x :: xs) ++ ys)%list with (x :: (xs ++ ys)%list).
  now rewrite !join_empty_cons, IH, append_assoc.
Qed.

Lemma map_index_from_later {A B : Type} (f : A -> nat -> B)
    (start : nat) (l : list A) :
  (forall x i, f x (S i) = f x 1) ->
  map_index_from f (S start) l = map (fun x => f x 1) l.
Proof.
  intros Hf. revert start.
  induction l as [|x l IH]; intros start; simpl; [reflexivity|].
  now rewrite Hf, IH.
Qed.

Lemma ends_with_refl (x : string) : ends_with x x.
Proof.
  now exists "".
Qed.

Lemma ends_with_app_r (x a b : string) :
  ends_with x b -> ends_with x (a ++ b).
Proof.
  intros (before & ->). exists (a ++ before). now rewrite append_assoc.
Qed.

Lemma map_index_from_split {A B : Type} (f : A -> nat -> B)
    (l : list A) (start i : nat) (x : A) :
  nth_error l i = Some x ->
  map_index_from f start l =
    (map_index_from f start (firstn i l)
       ++ f x (start + i)
       :: map_index_from f (S (start + i)) (skipn (S i) l))%list.
Proof.
  revert start i. induction l as [|y l IH]; intros start [|i] H;
    simpl in *; try discriminate.
  - injection H as ->. now rewrite Nat.add_0_r.
  - rewrite (IH (S start) i H). f_equal.
    now replace (S start + i) with (start + S i) by lia.
Qed.

Lemma generateEnvironmentTables_split (environments : list Environment)
    (index : nat) (env : Environment) :
  nth_error environments index = Some env ->
  generateEnvironmentTables environments =
    generateEnvironmentTables (firstn index environments)
      ++ environmentTable env index
      ++ join "" (map (fun e => environmentTable e 1)
                      (skipn (S index) environments)).
Proof.
  intros H. unfold generateEnvironmentTables, map_index.
  rewrite (map_index_from_split environmentTable environments 0 index env H).
  rewrite join_empty_app, join_empty_cons. simpl (0 + index).
  now rewrite map_index_from_later by reflexivity.
Qed.

Lemma tables_end_the_page (now : Date) (config : StatusPageConfig) :
  ends_with
    (html_tables
       ++ generateEnvironmentTables (StatusPageConfig.environments config)
       ++ html_end)
    (generateHTML now config).
Proof.
  unfold generateHTML. cbv zeta.
  repeat (apply ends_with_refl || apply ends_with_app_r).
Qed.

(** C5. In the rendered page the tables section, which follows the legend
    and ends the body, holds the tables of the environments in input order;
    the table at position 0 starts expanded (its opening tag carries the
    [open] attribute) and every table at a later position starts collapsed,
    rendered as it would be at position 1; which of the two is decided by
    the position alone, never by the environment or its statuses. *)
Theorem table_expanded_iff_first :
  forall (now : Date) (config : StatusPageConfig)
         (index : nat) (env : Environment),
    let environments := StatusPageConfig.environments config in
    nth_error environments index = Some env ->
    ends_with (html_tables ++ generateEnvironmentTables environments
                 ++ html_end)
              (generateHTML now config)
    /\ generateEnvironmentTables environments =
         generateEnvironmentTables (firstn index environments)
           ++ environmentTable env index
           ++ join "" (map (fun later => environmentTable later 1)
                           (skipn (S index) environments))
    /\ nth_error (map_index environmentTable environments) index
         = Some (environmentTable env index)
    /\ (starts_with details_expanded (environmentTable env index)
        <-> index = 0)
    /\ (starts_with details_collapsed (environmentTable env index)
        <-> index <> 0)
    /\ forall other : Environment,
         starts_with details_expanded (environmentTable other index)
         <-> starts_with details_expanded (environmentTable env index).
Proof.
  intros now config index env environments Hnth.
  split; [apply tables_end_the_page|].
  split; [now apply generateEnvironmentTables_split|].
  split; [now apply environmentTable_position|].
  rewrite <- !prefix_starts_with.
  destruct index as [|index].
  - pose proof (first_table_expanded env) as [He Hc]. rewrite He, Hc.
    split; [tauto|]. split; [split; [discriminate | congruence]|].
    intros other. rewrite <- !prefix_starts_with.
    pose proof (first_table_expanded other) as [He' _]. rewrite He, He'. tauto.
  - pose proof (later_table_collapsed env index) as [He Hc]. rewrite He, Hc.
    split; [split; discriminate|]. split; [split; [discriminate | reflexivity]|].
    intros other. rewrite <- !prefix_starts_with.
    pose proof (later_table_collapsed other index) as [He' _].
    rewrite He, He'. tauto.
Qed.

Lemma table_expanded_iff_first_witness :
  starts_with details_expanded (environmentTable production 0)
  /\ starts_with details_collapsed (environmentTable staging 1)
  /\ generateEnvironmentTables [production; staging]
     = generateEnvironmentTables [production]
         ++ environmentTable staging 1 ++ ""
  /\ ends_with (html_tables ++ generateEnvironmentTables [production; staging]
                  ++ html_end)
               (generateHTML noon staticConfig).
Proof.
  destruct (table_expanded_iff_first noon staticConfig 0 production eq_refl)
    as (_ & _ & _ & Hfirst & _).
  destruct (table_expanded_iff_first noon staticConfig 1 staging eq_refl)
    as (Hpage & Hsplit & _ & _ & Hlater & _).
  split; [apply Hfirst; reflexivity|].
  split; [apply Hlater; discriminate|].
  split; [exact Hsplit | exact Hpage].
Defined.

Lemma logoMarkup_occurs (now : Date) (config : StatusPageConfig) :
  occurs_in (html_nav ++ logoMarkup (StatusPageConfig.logo config)
               ++ html_header)
            (generateHTML now config).
Proof.
  exists (html_head ++ StatusPageConfig.title config ++ html_links
            ++ html_style_open ++ html_builtin_css
            ++ customCSS_or_empty config ++ html_style_close).
  eexists. unfold generateHTML. cbv zeta.
  rewrite !append_assoc. reflexivity.
Qed.

(** C6. A logo string that starts with the characters [<svg] appears
    verbatim in the rendered document, inlined in the logo block of the
    navigation bar; every other logo string appears inside the [src]
    attribute of an [img] element there. *)
Theorem logo_inlined_or_image_source :
  forall (now : Date) (config : StatusPageConfig),
    let logo := StatusPageConfig.logo config in
    let html := generateHTML now config in
    (starts_with "<svg" logo ->
       occurs_in logo html
       /\ occurs_in (html_nav ++ logo ++ html_header) html)
    /\ (~ starts_with "<svg" logo ->
       occurs_in (img_open ++ logo ++ img_close) html
       /\ occurs_in (html_nav ++ img_open ++ logo ++ img_close ++ html_header)
                    html).
Proof.
  intros now config logo html.
  pose proof (logoMarkup_occurs now config) as Hocc.
  fold logo html in Hocc. unfold logoMarkup in Hocc.
  rewrite <- prefix_starts_with.
  destruct (String.prefix "<svg" logo); split; intros H;
    try discriminate; try (now elim H).
  - split; [|exact Hocc].
    apply occurs_in_trans with (html_nav ++ logo ++ html_header);
      [occurs | exact Hocc].
  - split.
    + eapply occurs_in_trans; [|exact Hocc]. occurs.
    + rewrite !append_assoc in Hocc. exact Hocc.
Qed.

Lemma logo_inlined_or_image_source_witness :
  occurs_in demoLogo (generateHTML noon staticConfig)
  /\ occurs_in (img_open ++ "https://example.com/logo.png" ++ img_close)
       (generateHTML noon
          (StatusPageConfig.mk "My Company Status"
             "https://example.com/logo.png" noissue [production; staging]
             None)).
Proof.
  split.
  - apply (logo_inlined_or_image_source noon staticConfig).
    apply prefix_starts_with. reflexivity.
  - apply (logo_inlined_or_image_source noon
             (StatusPageConfig.mk "My Company Status"
                "https://example.com/logo.png" noissue [production; staging]
                None)).
    intros H. apply prefix_starts_with in H. discriminate.
Defined.

(** C7. When [customCSS] is present it stands verbatim at the end of the
    style block: between the opening [<style>] tag and the custom text come
    all the built-in rules, and between the custom text and the closing
    [</style>] tag only a line break and indentation.  An absent
    [customCSS] renders the same document as the empty string. *)
Theorem customCSS_ends_style_block :
  forall (now : Date) (config : StatusPageConfig),
    (forall css : string,
       StatusPageConfig.customCSS config = Some css ->
       exists before after,
         generateHTML now config =
           before ++ html_style_open ++ html_builtin_css
             ++ css ++ html_style_close ++ after)
    /\ (StatusPageConfig.customCSS config = None ->
        generateHTML now config =
        generateHTML now
          (StatusPageConfig.mk
             (StatusPageConfig.title config) (StatusPageConfig.logo config)
             (StatusPageConfig.currentStatus config)
             (StatusPageConfig.environments config) (Some ""))).
Proof.
  intros now config. split.
  - intros css Hcss.
    exists (html_head ++ StatusPageConfig.title config ++ html_links).
    eexists. unfold generateHTML, customCSS_or_empty. rewrite Hcss.
    cbv zeta. rewrite !append_assoc. reflexivity.
  - intros Hnone. unfold generateHTML, customCSS_or_empty. simpl.
    now rewrite Hnone.
Qed.

Lemma customCSS_ends_style_block_witness :
  (exists before after,
     generateHTML noon
       (StatusPageConfig.mk "T" "l.png" noissue []
          (Some "body { background-color: #f0f0f0; }")) =
       before ++ html_style_open ++ html_builtin_css
         ++ "body { background-color: #f0f0f0; }"
         ++ html_style_close ++ after)
  /\ generateHTML noon (StatusPageConfig.mk "T" "l.png" noissue [] None) =
     generateHTML noon (StatusPageConfig.mk "T" "l.png" noissue [] (Some "")).
Proof.
  split.
  - apply (customCSS_ends_style_block noon
             (StatusPageConfig.mk "T" "l.png" noissue []
                (Some "body { background-color: #f0f0f0; }"))).
    reflexivity.
  - apply (customCSS_ends_style_block noon
             (StatusPageConfig.mk "T" "l.png" noissue [] None)).
    reflexivity.
Defined.

(** C9. The rendered document is a function of the configuration and the
    clock reading alone: for each configuration the text before and the
    text after the embedded current-time string are fixed, so two renderings
    of the same configuration differ at most in that string, and are equal
    when the clock reads the same time. *)
Theorem render_fixed_around_current_time :
  forall config : StatusPageConfig,
    (exists before after : string,
       forall now : Date,
         generateHTML now config = before ++ getCurrentTime now ++ after)
    /\ (forall now now' : Date,
          getCurrentTime now = getCurrentTime now' ->
          generateHTML now config = generateHTML now' config
          /\ createStatusPage now config = createStatusPage now' config)
    /\ (forall now now' : Date,
          headers (createStatusPage now config)
          = headers (createStatusPage now' config)).
Proof.
  intros config. split; [|split].
  - exists (html_head ++ StatusPageConfig.title config ++ html_links
              ++ html_style_open ++ html_builtin_css
              ++ customCSS_or_empty config ++ html_style_close
              ++ html_nav ++ logoMarkup (StatusPageConfig.logo config)
              ++ html_header ++ ICONS (StatusPageConfig.currentStatus config)
              ++ html_h1 ++ TITLES (StatusPageConfig.currentStatus config)
              ++ html_today).
    eexists. intros now. unfold generateHTML. cbv zeta.
    rewrite !append_assoc. reflexivity.
  - intros now now' Htime. unfold createStatusPage, generateHTML. cbv zeta.
    now rewrite Htime.
  - intros now now'. reflexivity.
Qed.

Lemma render_fixed_around_current_time_witness :
  generateHTML summer_afternoon staticConfig
  = generateHTML {| hours := 15; minutes := 7; timezoneOffset := 120 |}
                 staticConfig.
Proof.
  destruct (render_fixed_around_current_time staticConfig) as (_ & Hsame & _).
  apply (Hsame summer_afternoon
               {| hours := 15; minutes := 7; timezoneOffset := 120 |}).
  reflexivity.
Defined.

Lemma name_occurs_in_table (env : Environment) (index : nat) :
  occurs_in (Environment.name env) (environmentTable env index).
Proof.
  unfold environmentTable. occurs.
Qed.

Lemma name_occurs_in_row (service : Service) :
  occurs_in (Service.name service) (serviceRow service).
Proof.
  unfold serviceRow. occurs.
Qed.

Lemma rows_occur_in_table (env : Environment) (index : nat) :
  occurs_in (generateServiceRows (Environment.services env))
            (environmentTable env index).
Proof.
  unfold environmentTable. occurs.
Qed.

Lemma title_occurs (now : Date) (config : StatusPageConfig) :
  occurs_in (StatusPageConfig.title config) (generateHTML now config).
Proof.
  unfold generateHTML. cbv zeta. occurs.
Qed.

(** C10. The renderer escapes nothing: the title, every environment name
    and every service name stand character for character in the rendered
    document, whatever characters they are made of. *)
Theorem names_rendered_verbatim :
  forall (now : Date) (config : StatusPageConfig),
    let html := generateHTML now config in
    occurs_in (StatusPageConfig.title config) html
    /\ forall env : Environment,
         In env (StatusPageConfig.environments config) ->
         occurs_in (Environment.name env) html
         /\ forall service : Service,
              In service (Environment.services env) ->
              occurs_in (Service.name service) html.
Proof.
  intros now config html. split; [apply title_occurs|].
  intros env Henv.
  destruct (In_nth_error _ _ Henv) as [index Hnth].
  assert (Htable : occurs_in (environmentTable env index) html).
  { eapply occurs_in_trans.
    - apply environmentTable_occurs, Hnth.
    - apply generateEnvironmentTables_occurs. }
  split.
  - eapply occurs_in_trans; [apply name_occurs_in_table | exact Htable].
  - intros service Hservice.
    eapply occurs_in_trans; [apply name_occurs_in_row|].
    eapply occurs_in_trans; [apply serviceRow_occurs, Hservice|].
    eapply occurs_in_trans; [apply rows_occur_in_table | exact Htable].
Qed.

Lemma names_rendered_verbatim_witness :
  occurs_in "<i>Production</i>" (generateHTML noon hostileConfig)
  /\ occurs_in "<script>alert(1)</script>" (generateHTML noon hostileConfig).
Proof.
  destruct (names_rendered_verbatim noon hostileConfig) as (_ & Henvs).
  destruct (Henvs hostileEnvironment (or_introl eq_refl))
    as (Hname & Hservices).
  split; [exact Hname|].
  apply (Hservices hostileService). left. reflexivity.
Defined.

(* ================================================================= *)
(** ** The timestamp *)

Lemma two_digit_shape (n : nat) :
  n < 100 -> two_digits (two_digit n) = true.
Proof.
  intros Hn.
  assert (Hall : forallb (fun k => two_digits (two_digit k)) (seq 0 100) = true)
    by (vm_compute; reflexivity).
  rewrite forallb_forall in Hall. apply Hall, in_seq. lia.
Qed.

Lemma toLocaleTimeString_hh_mm (d : Date) :
  hours d < 24 -> minutes d < 60 -> hh_mm (toLocaleTimeString d) = true.
Proof.
  intros Hh Hm. unfold toLocaleTimeString.
  assert (H1 : two_digits (two_digit (hours d)) = true)
    by (apply two_digit_shape; lia).
  assert (H2 : two_digits (two_digit (minutes d)) = true)
    by (apply two_digit_shape; lia).
  destruct (two_digit (hours d)) as [|h1 [|h2 [|? ?]]]; try discriminate.
  destruct (two_digit (minutes d)) as [|m1 [|m2 [|? ?]]]; try discriminate.
  simpl in *. apply andb_true_iff in H1 as [-> ->].
  apply andb_true_iff in H2 as [-> ->]. reflexivity.
Qed.

(** C8. The timestamp embedded in the page is the clock's local time as
    [HH:MM], a space, and a timezone label; the label is [GMT] exactly when
    the local offset from UTC is zero and the one fixed label [BST] for
    every other offset. *)
Theorem timestamp_is_time_and_label :
  forall now : Date,
    exists label : string,
      getCurrentTime now = toLocaleTimeString now ++ " " ++ label
      /\ (label = "GMT" <-> timezoneOffset now = 0%Z)
      /\ (timezoneOffset now <> 0%Z -> label = "BST")
      /\ (hours now < 24 -> minutes now < 60 ->
          hh_mm (toLocaleTimeString now) = true)
      /\ forall config : StatusPageConfig,
           occurs_in (html_today ++ getCurrentTime now ++ html_legend_noissue)
                     (generateHTML now config).
Proof.
  intros now.
  exists (if (timezoneOffset now =? 0)%Z then "GMT" else "BST").
  split; [reflexivity|].
  split; [|split; [|split]].
  - destruct (Z.eqb_spec (timezoneOffset now) 0) as [Hz | Hz].
    + tauto.
    + split; [discriminate | intros H; now elim Hz].
  - intros Hz. apply Z.eqb_neq in Hz. now rewrite Hz.
  - apply toLocaleTimeString_hh_mm.
  - intros config. unfold generateHTML. cbv zeta.
    exists (html_head ++ StatusPageConfig.title config ++ html_links
              ++ html_style_open ++ html_builtin_css
              ++ customCSS_or_empty config ++ html_style_close
              ++ html_nav ++ logoMarkup (StatusPageConfig.logo config)
              ++ html_header ++ ICONS (StatusPageConfig.currentStatus config)
              ++ html_h1 ++ TITLES (StatusPageConfig.currentStatus config)).
    eexists. rewrite !append_assoc. reflexivity.
Qed.

Lemma timestamp_is_time_and_label_witness :
  getCurrentTime noon = "12:00 GMT"
  /\ getCurrentTime summer_afternoon = "15:07 BST"
  /\ hh_mm (toLocaleTimeString summer_afternoon) = true.
Proof.
  split; [|split].
  - destruct (timestamp_is_time_and_label noon) as (label & Htime & Hgmt & _).
    rewrite Htime. replace label with "GMT"; [reflexivity|].
    symmetry. apply Hgmt. reflexivity.
  - destruct (timestamp_is_time_and_label summer_afternoon)
      as (label & Htime & _ & Hbst & _).
    rewrite Htime, Hbst; [reflexivity | discriminate].
  - destruct (timestamp_is_time_and_label summer_afternoon)
      as (label & _ & _ & _ & Hshape & _).
    apply Hshape; simpl; lia.
Defined.

(* ================================================================= *)
(** ** The adapter *)

Lemma strict_eq_string (v : JsValue) (s : string) :
  strict_eq v (JsString s) = true <-> v = JsString s.
Proof.
  destruct v; simpl; split; intros H; try discriminate.
  - apply String.eqb_eq in H. now subst.
  - injection H as ->. apply String.eqb_refl.
Qed.

Lemma issueMatches_iff (env : EnvironmentRecord) (s : ServiceRecord)
    (issue : IssueRecord) :
  issueMatches env s issue = true <->
  field "service" issue = JsString (ServiceRecord.referenceFieldValue s)
  /\ field "environment" issue = JsString (EnvironmentRecord.name env).
Proof.
  unfold issueMatches. now rewrite andb_true_iff, !strict_eq_string.
Qed.

(** C3. The severity rule is the same function at every place that rolls
    statuses up: on any list of statuses, the adapter's per-service status
    over the classified issues, the adapter's page-level status over all
    services, and the status whose icon the renderer shows for an
    environment are all the maximum under outage > incident > noissue,
    with noissue for the empty list. *)
Theorem severity_rule_same_at_all_sites :
  forall statuses : list StatusType,
    (forall (issueStatusType : IssueRecord -> StatusType)
            (scoped : list IssueRecord),
       map issueStatusType scoped = statuses ->
       statusOfIssues issueStatusType scoped = severity_max statuses)
    /\ (forall environments : list Environment,
          all_statuses environments = statuses ->
          statusOfEnvironments environments = severity_max statuses)
    /\ (forall services : list Service,
          map Service.status services = statuses ->
          getIcon services = ICONS (severity_max statuses))
    /\ (statuses = [] -> severity_max statuses = noissue).
Proof.
  intros statuses. split; [|split; [|split]].
  - intros issueStatusType scoped <-. apply statusOfIssues_severity_max.
  - intros environments <-. apply statusOfEnvironments_severity_max.
  - intros services <-. apply getIcon_severity_max.
  - intros ->. reflexivity.
Qed.

Lemma severity_rule_same_at_all_sites_witness :
  statusOfIssues demoIssueStatusType [ demoQuestionIssue; demoOutageIssue ]
    = outage
  /\ statusOfEnvironments [ production; staging ] = outage
  /\ getIcon (Environment.services production) = ICONS incident.
Proof.
  split; [|split].
  - destruct (severity_rule_same_at_all_sites [noissue; outage])
      as (Hadapter & _).
    apply (Hadapter demoIssueStatusType [ demoQuestionIssue; demoOutageIssue ]).
    reflexivity.
  - destruct (severity_rule_same_at_all_sites
                [noissue; incident; noissue; noissue; noissue; outage])
      as (_ & Hpage & _).
    apply (Hpage [ production; staging ]). reflexivity.
  - destruct (severity_rule_same_at_all_sites [noissue; incident; noissue])
      as (_ & _ & Hrenderer & _).
    apply (Hrenderer (Environment.services production)). reflexivity.
Defined.

(** C4. The adapter scopes an issue to a service exactly when the issue's
    [service] field is the service's reference field value and its
    [environment] field is the environment's name.  The service's status is
    the severity maximum of the classifications of its scoped issues, the
    returned [currentStatus] is the severity maximum over all services of
    all returned environments, and each returned environment carries, under
    its record's name, its services with those derived statuses, whose
    severity maximum is the status the page shows for it; so an outage
    issue scoped to a service makes that service, its environment under the
    severity rule, and the page an outage. *)
Theorem adapter_joins_and_rolls_up :
  forall (issueStatusType : IssueRecord -> StatusType)
         (environmentRecords : list EnvironmentRecord)
         (issueRecords : list IssueRecord),
    let config :=
      configFromGridfox issueStatusType environmentRecords issueRecords in
    let derived (env : EnvironmentRecord) (s : ServiceRecord) :=
      severity_max (map issueStatusType (scopedIssues issueRecords env s)) in
    (forall env s issue,
       In issue (scopedIssues issueRecords env s) <->
       In issue issueRecords
       /\ field "service" issue
          = JsString (ServiceRecord.referenceFieldValue s)
       /\ field "environment" issue
          = JsString (EnvironmentRecord.name env))
    /\ (forall env s,
          serviceOfRecord issueStatusType issueRecords env s
          = Service.mk (ServiceRecord.referenceFieldValue s) (derived env s))
    /\ StatusPageConfig.currentStatus config
       = severity_max (all_statuses (StatusPageConfig.environments config))
    /\ StatusPageConfig.environments config
       = map (fun env =>
                Environment.mk (EnvironmentRecord.name env)
                  (map (fun s =>
                          Service.mk (ServiceRecord.referenceFieldValue s)
                                     (derived env s))
                       (EnvironmentRecord.services env)))
             environmentRecords
    /\ (forall env,
          let returned :=
            environmentOfRecord issueStatusType issueRecords env in
          Environment.name returned = EnvironmentRecord.name env
          /\ map Service.status (Environment.services returned)
             = map (derived env) (EnvironmentRecord.services env)
          /\ getIcon (Environment.services returned)
             = ICONS (severity_max
                        (map (derived env) (EnvironmentRecord.services env))))
    /\ (forall env s issue,
          In env environmentRecords ->
          In s (EnvironmentRecord.services env) ->
          In issue (scopedIssues issueRecords env s) ->
          issueStatusType issue = outage ->
          derived env s = outage
          /\ severity_max
               (map Service.status
                  (Environment.services
                     (environmentOfRecord issueStatusType issueRecords env)))
             = outage
          /\ StatusPageConfig.currentStatus config = outage).
Proof.
  intros issueStatusType environmentRecords issueRecords config derived.
  assert (Hservice : forall env s,
    serviceOfRecord issueStatusType issueRecords env s
    = Service.mk (ServiceRecord.referenceFieldValue s) (derived env s)).
  { intros env s. unfold serviceOfRecord, derived.
    now rewrite statusOfIssues_severity_max. }
  assert (Hstatuses : forall env,
    map Service.status
      (Environment.services
         (environmentOfRecord issueStatusType issueRecords env))
    = map (derived env) (EnvironmentRecord.services env)).
  { intros env. simpl. rewrite map_map. apply map_ext.
    intros s. now rewrite Hservice. }
  split; [|split; [|split; [|split; [|split]]]].
  - intros env s issue. unfold scopedIssues.
    now rewrite filter_In, issueMatches_iff.
  - exact Hservice.
  - apply statusOfEnvironments_severity_max.
  - unfold config, configFromGridfox. simpl.
    apply map_ext. intros env. unfold environmentOfRecord. f_equal.
    apply map_ext. intros s. apply Hservice.
  - intros env returned. split; [reflexivity|]. split; [apply Hstatuses|].
    rewrite getIcon_severity_max. unfold returned. now rewrite Hstatuses.
  - intros env s issue Henv Hs Hissue Houtage.
    assert (Hd : derived env s = outage).
    { apply severity_max_outage. rewrite <- Houtage. now apply in_map. }
    assert (Hin : In outage
              (map Service.status
                 (Environment.services
                    (environmentOfRecord issueStatusType issueRecords env)))).
    { simpl. rewrite map_map. apply in_map_iff. exists s.
      split; [|exact Hs]. now rewrite Hservice. }
    split; [exact Hd|]. split; [now apply severity_max_outage|].
    unfold config, configFromGridfox. simpl.
    rewrite statusOfEnvironments_severity_max. apply severity_max_outage.
    unfold all_statuses. apply in_flat_map.
    exists (environmentOfRecord issueStatusType issueRecords env).
    split; [now apply in_map | exact Hin].
Qed.

Lemma adapter_joins_and_rolls_up_witness :
  In demoOutageIssue
     (scopedIssues demoIssueRecords demoProduction (demoService "API"))
  /\ StatusPageConfig.currentStatus
       (configFromGridfox demoIssueStatusType demoEnvironmentRecords
          demoIssueRecords) = outage
  /\ severity_max
       (map Service.status
          (Environment.services
             (environmentOfRecord demoIssueStatusType demoIssueRecords
                demoProduction))) = outage.
Proof.
  destruct (adapter_joins_and_rolls_up demoIssueStatusType
              demoEnvironmentRecords demoIssueRecords)
    as (Hjoin & _ & _ & _ & _ & Hscenario).
  assert (Hscoped : In demoOutageIssue
            (scopedIssues demoIssueRecords demoProduction (demoService "API"))).
  { apply Hjoin. split; [left; reflexivity | split; reflexivity]. }
  destruct (Hscenario demoProduction (demoService "API") demoOutageIssue
              (or_introl eq_refl) (or_intror (or_introl eq_refl))
              Hscoped eq_refl) as (_ & Henv & Hpage).
  split; [exact Hscoped | split; [exact Hpage | exact Henv]].
Defined.

(* ================================================================= *)
(** * Further properties of the renderer *)

Lemma append_cancel_l (a b c : string) : a ++ b = a ++ c -> b = c.
Proof.
  induction a as [|ch a IH]; simpl; intros H; [exact H|].
  injection H as H. now apply IH.
Qed.

(** X1. The tables section is the first environment's table, rendered
    expanded, followed by the tables of the other environments in order,
    each rendered exactly as it would be at position 1; without
    environments the section is empty. *)
Theorem tables_first_then_rest :
  generateEnvironmentTables [] = ""
  /\ forall (first : Environment) (rest : list Environment),
       generateEnvironmentTables (first :: rest) =
         environmentTable first 0
           ++ join "" (map (fun env => environmentTable env 1) rest).
Proof.
  split; [reflexivity|].
  intros first rest. unfold generateEnvironmentTables, map_index.
  simpl map_index_from. rewrite join_empty_cons. f_equal. f_equal.
  apply map_index_from_later. reflexivity.
Qed.

(** X2. Service rows are rendered one after another in input order: the
    rows of two lists put end to end are the rows of the first followed by
    the rows of the second, and no services give no text. *)
Theorem service_rows_concatenate :
  generateServiceRows [] = ""
  /\ forall xs ys : list Service,
       generateServiceRows (xs ++ ys)%list =
         generateServiceRows xs ++ generateServiceRows ys.
Proof.
  split; [reflexivity|].
  intros xs ys. unfold generateServiceRows.
  now rewrite map_app, join_empty_app.
Qed.

Lemma TITLES_injective (a b : StatusType) : TITLES a = TITLES b -> a = b.
Proof.
  destruct a, b; intros H; try reflexivity; vm_compute in H; discriminate.
Qed.

(** X3. A service row tells the status of its service: two services of the
    same name are rendered as the same row only if they have the same
    status. *)
Theorem service_row_tells_status :
  forall a b : Service,
    Service.name a = Service.name b ->
    serviceRow a = serviceRow b ->
    a = b.
Proof.
  intros [name_a status_a] [name_b status_b] Hname Hrow.
  simpl in Hname. subst name_b. f_equal.
  unfold serviceRow in Hrow. simpl Service.name in Hrow.
  simpl Service.status in Hrow.
  do 3 apply append_cancel_l in Hrow.
  destruct status_a, status_b; try reflexivity;
    vm_compute in Hrow; discriminate.
Qed.

Lemma service_row_tells_status_witness :
  Service.mk "API" incident = Service.mk "API" incident
  /\ serviceRow (Service.mk "API" incident)
     <> serviceRow (Service.mk "API" outage).
Proof.
  split.
  - apply (service_row_tells_status
             (Service.mk "API" incident) (Service.mk "API" incident));
      reflexivity.
  - intros Hrow.
    pose proof (service_row_tells_status
                  (Service.mk "API" incident) (Service.mk "API" outage)
                  eq_refl Hrow) as Heq.
    discriminate.
Defined.

(** X4. The icon table and the title table never show two statuses alike:
    different statuses have different icons and different titles. *)
Theorem status_tables_injective :
  forall a b : StatusType,
    (ICONS a = ICONS b -> a = b) /\ (TITLES a = TITLES b -> a = b).
Proof.
  intros a b. split; [apply ICONS_injective | apply TITLES_injective].
Qed.

Lemma status_tables_injective_witness :
  incident = incident
  /\ ICONS incident <> ICONS outage /\ TITLES incident <> TITLES outage.
Proof.
  split.
  - apply (status_tables_injective incident incident). reflexivity.
  - destruct (status_tables_injective incident outage) as (Hicons & Htitles).
    split; intros H; [apply Hicons in H | apply Htitles in H]; discriminate.
Defined.

(* ================================================================= *)
(** ** Further properties of the severity rule *)

Lemma severity_max_same_alarms (xs ys : list StatusType) :
  (In outage xs <-> In outage ys) ->
  (In incident xs <-> In incident ys) ->
  severity_max xs = severity_max ys.
Proof.
  intros Hout Hinc.
  destruct (severity_max ys) eqn:E.
  - apply severity_max_noissue in E. apply severity_max_noissue. tauto.
  - apply severity_max_incident in E. apply severity_max_incident. tauto.
  - apply severity_max_outage in E. apply severity_max_outage. tauto.
Qed.

Lemma severity_max_attained (xs : list StatusType) :
  severity_max xs = noissue \/ In (severity_max xs) xs.
Proof.
  destruct (severity_max xs) eqn:E.
  - now left.
  - right. now apply severity_max_incident in E.
  - right. now apply severity_max_outage in E.
Qed.

Lemma severity_max_incl (xs ys : list StatusType) :
  incl xs ys -> severity (severity_max xs) <= severity (severity_max ys).
Proof.
  intros Hincl. destruct (severity_max_attained xs) as [-> | Hin].
  - simpl. lia.
  - apply severity_max_upper_bound, Hincl, Hin.
Qed.

Lemma more_severe_assoc (a b c : StatusType) :
  more_severe a (more_severe b c) = more_severe (more_severe a b) c.
Proof.
  destruct a, b, c; reflexivity.
Qed.

Lemma severity_max_app (xs ys : list StatusType) :
  severity_max (xs ++ ys)%list =
  more_severe (severity_max xs) (severity_max ys).
Proof.
  induction xs as [|x xs IH]; simpl.
  - now destruct (severity_max ys).
  - now rewrite IH, more_severe_assoc.
Qed.

(** X5. The status shown for an environment depends on which statuses
    occur among its services, not on their order or how often they occur:
    two service lists with the same statuses present get the same icon. *)
Theorem getIcon_depends_on_statuses_present :
  forall xs ys : list Service,
    (forall wanted : StatusType,
       In wanted (map Service.status xs) <-> In wanted (map Service.status ys)) ->
    getIcon xs = getIcon ys.
Proof.
  intros xs ys Hsame. rewrite !getIcon_severity_max. f_equal.
  apply severity_max_same_alarms; apply Hsame.
Qed.

Lemma getIcon_depends_on_statuses_present_witness :
  getIcon [ Service.mk "a" outage; Service.mk "b" noissue ]
  = getIcon [ Service.mk "c" noissue; Service.mk "d" noissue;
              Service.mk "e" outage; Service.mk "f" outage ].
Proof.
  apply getIcon_depends_on_statuses_present.
  intros wanted. simpl. tauto.
Defined.

(** X6. More never makes the status milder: the status a service gets from
    a list of issues is at least as severe as from any part of it, and the
    page-level status over a list of environments at least as severe as
    over any part of it. *)
Theorem rollup_monotone :
  (forall (issueStatusType : IssueRecord -> StatusType)
          (fewer more : list IssueRecord),
     incl fewer more ->
     severity (statusOfIssues issueStatusType fewer)
     <= severity (statusOfIssues issueStatusType more))
  /\ (forall fewer more : list Environment,
        incl fewer more ->
        severity (statusOfEnvironments fewer)
        <= severity (statusOfEnvironments more)).
Proof.
  split.
  - intros issueStatusType fewer more Hincl.
    rewrite !statusOfIssues_severity_max. apply severity_max_incl.
    intros st Hst. apply in_map_iff in Hst as (i & <- & Hi).
    apply in_map, Hincl, Hi.
  - intros fewer more Hincl.
    rewrite !statusOfEnvironments_severity_max. apply severity_max_incl.
    intros st Hst. unfold all_statuses in *.
    apply in_flat_map in Hst as (e & He & Hst).
    apply in_flat_map. exists e. split; [apply Hincl, He | exact Hst].
Qed.

Lemma rollup_monotone_witness :
  severity (statusOfIssues demoIssueStatusType [ demoQuestionIssue ])
  <= severity (statusOfIssues demoIssueStatusType demoIssueRecords)
  /\ severity (statusOfEnvironments [ production ])
     <= severity (statusOfEnvironments [ production; staging ]).
Proof.
  destruct rollup_monotone as (Hissues & Henvs).
  split.
  - apply Hissues. intros i [<- | []]. right. left. reflexivity.
  - apply Henvs. intros e [<- | []]. left. reflexivity.
Defined.

(** X7. The page-level status the adapter computes is the severity maximum
    of the statuses the renderer shows per environment: it is an outage
    exactly when some environment shows the outage icon, and no issue
    exactly when every environment shows the no-issue icon. *)
Theorem page_status_is_max_of_environment_statuses :
  forall environments : list Environment,
    statusOfEnvironments environments =
      severity_max
        (map (fun e => severity_max
                         (map Service.status (Environment.services e)))
             environments)
    /\ (statusOfEnvironments environments = outage <->
        exists e, In e environments
                  /\ getIcon (Environment.services e) = ICONS outage)
    /\ (statusOfEnvironments environments = noissue <->
        forall e, In e environments ->
                  getIcon (Environment.services e) = ICONS noissue).
Proof.
  intros environments.
  assert (Hmax : statusOfEnvironments environments =
      severity_max
        (map (fun e => severity_max
                         (map Service.status (Environment.services e)))
             environments)).
  { rewrite statusOfEnvironments_severity_max. unfold all_statuses.
    induction environments as [|e es IH]; simpl; [reflexivity|].
    now rewrite severity_max_app, IH. }
  split; [exact Hmax|]. split.
  - rewrite Hmax, severity_max_outage, in_map_iff.
    split; intros (e & H1 & H2); exists e.
    + split; [exact H2|]. now rewrite getIcon_severity_max, H1.
    + split; [|exact H1]. rewrite getIcon_severity_max in H2.
      now apply ICONS_injective.
  - rewrite statusOfEnvironments_severity_max, severity_max_noissue.
    unfold all_statuses. split.
    + intros [Hout Hinc] e He. rewrite getIcon_severity_max. f_equal.
      apply severity_max_noissue. split; intros Hin.
      * apply Hout, in_flat_map. now exists e.
      * apply Hinc, in_flat_map. now exists e.
    + intros Hall. split; intros Hin;
        apply in_flat_map in Hin as (e & He & Hin);
        specialize (Hall e He); rewrite getIcon_severity_max in Hall;
        apply ICONS_injective, severity_max_noissue in Hall; tauto.
Qed.

Lemma page_status_is_max_of_environment_statuses_witness :
  statusOfEnvironments [ production; staging ] = outage.
Proof.
  apply (page_status_is_max_of_environment_statuses [ production; staging ]).
  exists staging. split; [right; left; reflexivity | reflexivity].
Defined.

(* ================================================================= *)
(** ** Further properties of the adapter *)

Lemma filter_filter_implied {A : Type} (p q : A -> bool) (l : list A) :
  (forall x, p x = true -> q x = true) ->
  filter p (filter q l) = filter p l.
Proof.
  intros Himp. induction l as [|x l IH]; simpl; [reflexivity|].
  destruct (q x) eqn:Hq; simpl.
  - now rewrite IH.
  - destruct (p x) eqn:Hp; [|exact IH].
    apply Himp in Hp. congruence.
Qed.

Lemma filter_swap {A : Type} (p q : A -> bool) (l : list A) :
  filter p (filter q l) = filter q (filter p l).
Proof.
  induction l as [|x l IH]; simpl; [reflexivity|].
  destruct (q x) eqn:Hq, (p x) eqn:Hp; simpl; rewrite ?Hq, ?Hp, IH;
    reflexivity.
Qed.

Lemma statusOfIssues_alarming (issueStatusType : IssueRecord -> StatusType)
    (issues : list IssueRecord) :
  statusOfIssues issueStatusType (filter (alarming issueStatusType) issues)
  = statusOfIssues issueStatusType issues.
Proof.
  rewrite !statusOfIssues_severity_max.
  apply severity_max_same_alarms; rewrite !in_map_iff;
    split; intros (i & Hi & Hin); exists i; split; try exact Hi.
  - now apply filter_In in Hin.
  - apply filter_In. split; [exact Hin|]. unfold alarming. now rewrite Hi.
  - now apply filter_In in Hin.
  - apply filter_In. split; [exact Hin|]. unfold alarming. now rewrite Hi.
Qed.

Lemma configFromGridfox_same_services
    (issueStatusType : IssueRecord -> StatusType)
    (environmentRecords : list EnvironmentRecord)
    (issues issues' : list IssueRecord) :
  (forall env s,
     In env environmentRecords -> In s (EnvironmentRecord.services env) ->
     serviceOfRecord issueStatusType issues env s
     = serviceOfRecord issueStatusType issues' env s) ->
  configFromGridfox issueStatusType environmentRecords issues
  = configFromGridfox issueStatusType environmentRecords issues'.
Proof.
  intros Hsame. unfold configFromGridfox.
  assert (Henvs : map (environmentOfRecord issueStatusType issues)
                      environmentRecords
                  = map (environmentOfRecord issueStatusType issues')
                        environmentRecords).
  { apply map_ext_in. intros env Henv. unfold environmentOfRecord. f_equal.
    apply map_ext_in. intros s Hs. now apply Hsame. }
  now rewrite Henvs.
Qed.

(** X8. The adapter keeps the environments and their services in the order
    and number of the fetched records: the returned environments have the
    records' names in order, and the services of each the reference field
    values of its record's services in order. *)
Theorem adapter_keeps_order_and_names :
  forall (issueStatusType : IssueRecord -> StatusType)
         (environmentRecords : list EnvironmentRecord)
         (issueRecords : list IssueRecord),
    let config :=
      configFromGridfox issueStatusType environmentRecords issueRecords in
    map Environment.name (StatusPageConfig.environments config)
      = map EnvironmentRecord.name environmentRecords
    /\ List.length (StatusPageConfig.environments config)
       = List.length environmentRecords
    /\ forall (index : nat) (env : EnvironmentRecord),
         nth_error environmentRecords index = Some env ->
         exists returned : Environment,
           nth_error (StatusPageConfig.environments config) index
             = Some returned
           /\ Environment.name returned = EnvironmentRecord.name env
           /\ map Service.name (Environment.services returned)
              = map ServiceRecord.referenceFieldValue
                    (EnvironmentRecord.services env).
Proof.
  intros issueStatusType environmentRecords issueRecords config.
  unfold config, configFromGridfox. simpl. split; [|split].
  - rewrite map_map. apply map_ext. reflexivity.
  - apply length_map.
  - intros index env Hnth.
    exists (environmentOfRecord issueStatusType issueRecords env).
    split; [now apply map_nth_error|]. split; [reflexivity|].
    simpl. rewrite map_map. apply map_ext. reflexivity.
Qed.

Lemma adapter_keeps_order_and_names_witness :
  exists returned : Environment,
    nth_error
      (StatusPageConfig.environments
         (configFromGridfox demoIssueStatusType demoEnvironmentRecords
            demoIssueRecords)) 1 = Some returned
    /\ Environment.name returned = "Staging"
    /\ map Service.name (Environment.services returned) = [ "Web App"; "API" ].
Proof.
  destruct (adapter_keeps_order_and_names demoIssueStatusType
              demoEnvironmentRecords demoIssueRecords) as (_ & _ & Hnth).
  exact (Hnth 1 demoStaging eq_refl).
Defined.

(** X9. Issues that the classifier maps to no issue change nothing: the
    adapter returns the same configuration with them as without them, and
    when every issue is such, every service and the page are no issue. *)
Theorem adapter_ignores_noissue_issues :
  forall (issueStatusType : IssueRecord -> StatusType)
         (environmentRecords : list EnvironmentRecord)
         (issueRecords : list IssueRecord),
    configFromGridfox issueStatusType environmentRecords issueRecords
    = configFromGridfox issueStatusType environmentRecords
        (filter (alarming issueStatusType) issueRecords)
    /\ ((forall issue, In issue issueRecords ->
                       issueStatusType issue = noissue) ->
        StatusPageConfig.currentStatus
          (configFromGridfox issueStatusType environmentRecords issueRecords)
        = noissue
        /\ forall env s,
             Service.status
               (serviceOfRecord issueStatusType issueRecords env s)
             = noissue).
Proof.
  intros issueStatusType environmentRecords issueRecords.
  assert (Hservice : forall issues env s,
    serviceOfRecord issueStatusType issues env s
    = serviceOfRecord issueStatusType
        (filter (alarming issueStatusType) issues) env s).
  { intros issues env s. unfold serviceOfRecord, scopedIssues. f_equal.
    now rewrite filter_swap, statusOfIssues_alarming. }
  split.
  - apply configFromGridfox_same_services. intros env s _ _. apply Hservice.
  - intros Hall.
    assert (Hnone : filter (alarming issueStatusType) issueRecords = []).
    { induction issueRecords as [|i issues IH]; [reflexivity|]. simpl.
      unfold alarming at 1. rewrite (Hall i (or_introl eq_refl)). simpl.
      apply IH. intros issue Hin. apply Hall. now right. }
    assert (Hquiet : forall env s,
      Service.status (serviceOfRecord issueStatusType issueRecords env s)
      = noissue).
    { intros env s. rewrite Hservice, Hnone. reflexivity. }
    split; [|exact Hquiet].
    unfold configFromGridfox. simpl.
    rewrite statusOfEnvironments_severity_max.
    apply severity_max_noissue. unfold all_statuses.
    split; intros Hin; apply in_flat_map in Hin as (e & He & Hin);
      apply in_map_iff in He as (env & <- & _); simpl in Hin;
      rewrite map_map in Hin; apply in_map_iff in Hin as (s & Hs & _);
      rewrite Hquiet in Hs; discriminate.
Qed.

Lemma adapter_ignores_noissue_issues_witness :
  StatusPageConfig.currentStatus
    (configFromGridfox demoIssueStatusType demoEnvironmentRecords
       [ demoQuestionIssue ]) = noissue.
Proof.
  destruct (adapter_ignores_noissue_issues demoIssueStatusType
              demoEnvironmentRecords [ demoQuestionIssue ]) as (_ & Hquiet).
  apply Hquiet. intros issue [<- | []]. reflexivity.
Defined.

(** X10. Issues that match no service of any fetched environment change
    nothing: the adapter returns the same configuration without them.  An
    issue whose [environment] field is the name of no fetched environment
    is such an issue, and so is one whose [service] field is the reference
    field value of no fetched service. *)
Theorem adapter_ignores_unmatched_issues :
  forall (issueStatusType : IssueRecord -> StatusType)
         (environmentRecords : list EnvironmentRecord)
         (issueRecords : list IssueRecord),
    configFromGridfox issueStatusType environmentRecords issueRecords
    = configFromGridfox issueStatusType environmentRecords
        (filter (scopedSomewhere environmentRecords) issueRecords)
    /\ forall issue : IssueRecord,
         ((forall env, In env environmentRecords ->
             field "environment" issue
             <> JsString (EnvironmentRecord.name env))
          \/ (forall env s,
                In env environmentRecords ->
                In s (EnvironmentRecord.services env) ->
                field "service" issue
                <> JsString (ServiceRecord.referenceFieldValue s))) ->
         scopedSomewhere environmentRecords issue = false
         /\ configFromGridfox issueStatusType environmentRecords
              (issue :: issueRecords)
            = configFromGridfox issueStatusType environmentRecords
                issueRecords.
Proof.
  intros issueStatusType environmentRecords issueRecords.
  assert (Hfilter : forall issues,
    configFromGridfox issueStatusType environmentRecords issues
    = configFromGridfox issueStatusType environmentRecords
        (filter (scopedSomewhere environmentRecords) issues)).
  { intros issues. apply configFromGridfox_same_services.
    intros env s Henv Hs. unfold serviceOfRecord, scopedIssues. f_equal.
    f_equal. symmetry. apply filter_filter_implied.
    intros issue Hmatch. unfold scopedSomewhere.
    apply existsb_exists. exists env. split; [exact Henv|].
    apply existsb_exists. exists s. split; [exact Hs | exact Hmatch]. }
  split; [apply Hfilter|].
  intros issue Hstray.
  assert (Hnot : scopedSomewhere environmentRecords issue = false).
  { unfold scopedSomewhere.
    destruct (existsb _ environmentRecords) eqn:E; [|reflexivity].
    apply existsb_exists in E as (env & Henv & E).
    apply existsb_exists in E as (s & Hs & E).
    apply issueMatches_iff in E as [Eservice Eenv].
    destruct Hstray as [Hstray | Hstray].
    - now elim (Hstray env Henv).
    - now elim (Hstray env s Henv Hs). }
  split; [exact Hnot|].
  rewrite (Hfilter (issue :: issueRecords)). simpl. rewrite Hnot.
  symmetry. apply Hfilter.
Qed.

Lemma adapter_ignores_unmatched_issues_witness :
  configFromGridfox demoIssueStatusType demoEnvironmentRecords
    (demoStrayIssue :: demoIssueRecords)
  = configFromGridfox demoIssueStatusType demoEnvironmentRecords
      demoIssueRecords.
Proof.
  destruct (adapter_ignores_unmatched_issues demoIssueStatusType
              demoEnvironmentRecords demoIssueRecords) as (_ & Hstray).
  apply (Hstray demoStrayIssue). left.
  intros env [<- | [<- | [<- | []]]]; discriminate.
Defined.

(* ================================================================= *)
(** ** Further properties of the page and the requests *)

Lemma starts_with_app (x a b : string) :
  starts_with x a -> starts_with x (a ++ b).
Proof.
  intros (after & ->). exists (after ++ b). now rewrite append_assoc.
Qed.

(** X11. A configuration rendered as the adapter returns it has an empty
    title element and, for its logo, an image with an empty source; nothing
    is added to the built-in style rules.  The document is then fixed from
    its first character to the page-level icon. *)
Theorem adapter_page_has_empty_title_and_logo :
  forall (remote : Remote) (config : GridfoxConfig) (now : Date),
    let page := generateHTML now (configFromGridfoxOver remote config) in
    starts_with
      (html_head ++ html_links ++ html_style_open ++ html_builtin_css
         ++ html_style_close ++ html_nav ++ empty_logo_image ++ html_header)
      page
    /\ occurs_in empty_title page
    /\ occurs_in empty_logo_image page.
Proof.
  intros remote config now page.
  assert (Hstart : starts_with
      (html_head ++ html_links ++ html_style_open ++ html_builtin_css
         ++ html_style_close ++ html_nav ++ empty_logo_image ++ html_header)
      page).
  { eexists. unfold page, generateHTML, configFromGridfoxOver,
      configFromGridfox, customCSS_or_empty, logoMarkup.
    cbv zeta. simpl StatusPageConfig.title. simpl StatusPageConfig.logo.
    simpl StatusPageConfig.customCSS. simpl String.prefix.
    change (img_open ++ "" ++ img_close) with empty_logo_image.
    change ("" ++ html_links) with html_links.
    change ("" ++ html_style_close) with html_style_close.
    rewrite !append_assoc. reflexivity. }
  split; [exact Hstart|].
  destruct Hstart as (after & Hpage). rewrite Hpage. split.
  - apply occurs_in_app_l.
    rewrite <- append_assoc. apply occurs_in_app_l.
    exists (substring 0 (String.length html_head - 7) html_head),
           (substring 8 (String.length html_links - 8) html_links).
    vm_compute. reflexivity.
  - apply occurs_in_app_l. occurs.
Qed.

(** X12. Whatever the configuration, the response body is one document
    that opens with the doctype line and closes with the end tags of body
    and html, and the response is labelled as HTML. *)
Theorem response_is_a_framed_html_document :
  forall (now : Date) (config : StatusPageConfig),
    let response := createStatusPage now config in
    body response = generateHTML now config
    /\ starts_with doctype_line (body response)
    /\ ends_with html_end (body response)
    /\ headers response = [ ("Content-Type", "text/html") ].
Proof.
  intros now config response. split; [reflexivity|].
  split; [|split; [|reflexivity]].
  - unfold response, createStatusPage, body, generateHTML. cbv zeta.
    apply starts_with_app. apply prefix_starts_with. reflexivity.
  - unfold response, createStatusPage, body, generateHTML. cbv zeta.
    repeat (apply ends_with_app_r). apply ends_with_refl.
Qed.

Lemma join_comma_cons (x y : string) (rest : list string) :
  join "," (x :: y :: rest) = x ++ "," ++ join "," (y :: rest).
Proof.
  reflexivity.
Qed.

Lemma join_comma_app (xs ys : list string) :
  xs <> [] -> ys <> [] ->
  join "," (xs ++ ys)%list = join "," xs ++ "," ++ join "," ys.
Proof.
  intros Hxs Hys. induction xs as [|x xs IH]; [now elim Hxs|].
  destruct xs as [|x' xs].
  - destruct ys as [|y ys]; [now elim Hys|]. reflexivity.
  - change ((x :: x' :: xs) ++ ys)%list with (x :: x' :: (xs ++ ys)%list).
    rewrite !join_comma_cons.
    change (x' :: (xs ++ ys)%list) with ((x' :: xs) ++ ys)%list.
    rewrite IH by discriminate. now rewrite !append_assoc.
Qed.

Lemma occurs_in_join_comma (x : string) (parts : list string) :
  In x parts -> occurs_in x (join "," parts).
Proof.
  induction parts as [|y parts IH]; intros Hin; [destruct Hin|].
  destruct parts as [|z parts].
  - destruct Hin as [-> | []]. apply occurs_in_refl.
  - rewrite join_comma_cons. destruct Hin as [-> | Hin].
    + apply occurs_in_app_l, occurs_in_refl.
    + apply occurs_in_app_r, occurs_in_app_r, IH, Hin.
Qed.

Lemma join_comma_from_second (x : string) (rest : list string) :
  join "," (x :: rest) = x ++ join "" (map (fun y => "," ++ y) rest).
Proof.
  revert x. induction rest as [|y rest IH]; intros x.
  - unfold join. simpl. now rewrite append_empty_r.
  - rewrite join_comma_cons, IH. simpl map. rewrite join_empty_cons.
    reflexivity.
Qed.

(** X13. The query of the issues request lists the open statuses in order,
    each between single quotes exactly as configured, with a comma before
    every one but the first and nowhere else; an empty list of open
    statuses asks for a status in the empty list.  The query ends the
    request URL. *)
Theorem issues_request_lists_open_statuses :
  forall config : GridfoxConfig,
    let items := GridfoxConfig.openIssueListItems config in
    let selector :=
      "?paged=false&$filter="
        ++ GridfoxConfig.issueStatusListFieldName config ++ " in (" in
    (items = [] -> issuesFilter config = selector ++ ")")
    /\ (forall first others, items = first :: others ->
          issuesFilter config =
            selector ++ quoteItem first
              ++ join "" (map (fun item => "," ++ quoteItem item) others)
              ++ ")")
    /\ (forall item, In item items ->
          occurs_in (quoteItem item) (Request.url (issuesRequest config)))
    /\ (forall xs ys, xs <> [] -> ys <> [] -> items = (xs ++ ys)%list ->
          issuesFilter config =
            selector ++ join "," (map quoteItem xs) ++ ","
              ++ join "," (map quoteItem ys) ++ ")")
    /\ Request.url (issuesRequest config)
       = apiRoot config ++ "/data/" ++ GridfoxConfig.issuesTableName config
           ++ issuesFilter config.
Proof.
  intros config items selector. split; [|split; [|split; [|split]]].
  - intros Hitems. unfold issuesFilter, selector. fold items.
    rewrite Hitems. simpl map. unfold join. simpl String.concat.
    now rewrite !append_assoc.
  - intros first others Hitems. unfold issuesFilter, selector. fold items.
    rewrite Hitems. simpl map. rewrite join_comma_from_second, map_map.
    now rewrite !append_assoc.
  - intros item Hin. unfold issuesRequest, fetchGridfox, issuesFilter.
    cbn [Request.url]. fold items.
    do 6 apply occurs_in_app_r. apply occurs_in_app_l.
    apply occurs_in_join_comma. now apply in_map.
  - intros xs ys Hxs Hys Hitems. unfold issuesFilter, selector. fold items.
    rewrite Hitems, map_app, join_comma_app.
    + now rewrite !append_assoc.
    + destruct xs; [now elim Hxs | discriminate].
    + destruct ys; [now elim Hys | discriminate].
  - reflexivity.
Qed.

Lemma issues_request_lists_open_statuses_witness :
  issuesFilter demoGridfoxConfig
  = "?paged=false&$filter=Status in ('New','In Progress')"
  /\ issuesFilter
       (GridfoxConfig.mk "secret" None "Environments" "Issues" "Status"
          [ "New" ] demoIssueStatusType None)
     = "?paged=false&$filter=Status in ('New')"
  /\ occurs_in "'In Progress'" (Request.url (issuesRequest demoGridfoxConfig)).
Proof.
  destruct (issues_request_lists_open_statuses demoGridfoxConfig)
    as (_ & Hlist & Hitem & _).
  destruct (issues_request_lists_open_statuses
              (GridfoxConfig.mk "secret" None "Environments" "Issues" "Status"
                 [ "New" ] demoIssueStatusType None))
    as (_ & Hone & _).
  split; [|split].
  - rewrite (Hlist "New" [ "In Progress" ] eq_refl). reflexivity.
  - rewrite (Hone "New" [] eq_refl). reflexivity.
  - apply (Hitem "In Progress"). right. left. reflexivity.
Defined.

(** X14. Both requests go to the same root, under [/data/] and the name
    of their table; the root is the configured override unless that is
    absent or empty, when it is the production API. *)
Theorem requests_share_root :
  forall config : GridfoxConfig,
    Request.url (environmentsRequest config)
      = apiRoot config ++ "/data/"
          ++ GridfoxConfig.environmentsTableName config ++ "?paged=false"
    /\ starts_with (apiRoot config ++ "/data/"
                      ++ GridfoxConfig.issuesTableName config
                      ++ "?paged=false&$filter=")
                   (Request.url (issuesRequest config))
    /\ (GridfoxConfig.proxyApiUrl config = None
        \/ GridfoxConfig.proxyApiUrl config = Some "" ->
        apiRoot config = "https://api.gridfox.com")
    /\ (forall proxy,
          GridfoxConfig.proxyApiUrl config = Some proxy -> proxy <> "" ->
          apiRoot config = proxy).
Proof.
  intros config. split; [|split; [|split]].
  - reflexivity.
  - eexists. unfold issuesRequest, fetchGridfox, issuesFilter.
    cbn [Request.url]. rewrite !append_assoc. reflexivity.
  - unfold apiRoot. intros [-> | ->]; reflexivity.
  - intros proxy Hproxy Hne. unfold apiRoot. rewrite Hproxy.
    apply String.eqb_neq in Hne. now rewrite Hne.
Qed.

Lemma requests_share_root_witness :
  apiRoot demoGridfoxConfig = "https://api.gridfox.com"
  /\ apiRoot (GridfoxConfig.mk "secret" None "Environments" "Issues" "Status"
                [ "New" ] demoIssueStatusType (Some ""))
     = "https://api.gridfox.com"
  /\ apiRoot (GridfoxConfig.mk "secret" None "Environments" "Issues" "Status"
                [ "New" ] demoIssueStatusType (Some "http://localhost:8000"))
     = "http://localhost:8000".
Proof.
  destruct (requests_share_root demoGridfoxConfig) as (_ & _ & Hdefault & _).
  destruct (requests_share_root
              (GridfoxConfig.mk "secret" None "Environments" "Issues" "Status"
                 [ "New" ] demoIssueStatusType (Some "")))
    as (_ & _ & Hempty & _).
  destruct (requests_share_root
              (GridfoxConfig.mk "secret" None "Environments" "Issues" "Status"
                 [ "New" ] demoIssueStatusType (Some "http://localhost:8000")))
    as (_ & _ & _ & Hproxy).
  split; [|split].
  - apply Hdefault. left. reflexivity.
  - apply Hempty. right. reflexivity.
  - apply (Hproxy "http://localhost:8000"); [reflexivity | discriminate].
Defined.

(** X15. The environments reach the document only through the tables
    section at its end: with the title, logo, page-level status and custom
    style fixed, everything before that section is the same text whatever
    the environments are, so the header is never adjusted to the services. *)
Theorem environments_touch_only_the_tables :
  forall (now : Date) (title logo : string) (status : StatusType)
         (css : option string),
    exists before : string,
      forall environments : list Environment,
        generateHTML now
          (StatusPageConfig.mk title logo status environments css)
        = before ++ generateEnvironmentTables environments ++ html_end.
Proof.
  intros now title logo status css.
  exists (html_head ++ title ++ html_links ++ html_style_open
            ++ html_builtin_css
            ++ customCSS_or_empty
                 (StatusPageConfig.mk title logo status [] css)
            ++ html_style_close ++ html_nav ++ logoMarkup logo
            ++ html_header ++ ICONS status ++ html_h1 ++ TITLES status
            ++ html_today ++ getCurrentTime now
            ++ html_legend_noissue ++ ICONS noissue
            ++ html_legend_incident ++ ICONS incident
            ++ html_legend_outage ++ ICONS outage ++ html_tables).
  intros environments. unfold generateHTML, customCSS_or_empty. cbv zeta.
  cbn [StatusPageConfig.title StatusPageConfig.logo
       StatusPageConfig.currentStatus StatusPageConfig.environments
       StatusPageConfig.customCSS].
  rewrite !append_assoc. reflexivity.
Qed.
